(** * Response-matrix construction (response.py): rebinning, Compton
      kinematics and the bracketing / interpolation loop of [response].

    Numbers: the program computes with NumPy double-precision floats.  They
    are modelled here by the real numbers [R] of the Standard Library, that
    is, every arithmetic operation is taken exact (no rounding, no overflow,
    no NaN).  Where exactness in the program's own arithmetic is the
    question, [rebin_by_arrays] is also given on binary64 numbers (module
    [B64]).  Python exceptions ([IndexError]) are modelled by [option].

    [response] itself is unfinished in the source (lines 237-238 do not
    parse, the matrix [R] is never allocated, the names [Eg_low], [Eg_high]
    and [E] are never bound): only those of its statements that can be read
    as they stand are embedded, each on its own. *)

From Stdlib Require Import PrimInt63 PrimFloat.
From Stdlib Require Import String.
From Stdlib Require Import Reals Lra Lia List ZArith Bool PeanoNat.
Import ListNotations.
Open Scope R_scope.
Set Warnings "-inexact-float".

(** ** A small error monad for Python's [IndexError] *)

Definition bind {A B : Type} (m : option A) (f : A -> option B) : option B :=
  match m with
  | Some a => f a
  | None => None
  end.

Notation "x <- m ;; k" := (bind m (fun x => k))
  (at level 61, m at next level, right associativity).

(** [l[i]] for a non-negative index: [IndexError] when out of range. *)
Definition getitem {A : Type} (l : list A) (i : nat) : option A := nth_error l i.

(** ** NumPy helpers *)

(** [np.linspace(start, stop, num)]: [num] points
    [start + k * ((stop - start) / (num - 1))], [k = 0 .. num-1]. *)
Definition linspace (start stop : R) (num : nat) : list R :=
  map (fun k => start + INR k * ((stop - start) / INR (num - 1))) (seq 0 num).

(** [a.sum()] *)
Definition np_sum (a : list R) : R := fold_left Rplus a 0.

(** [a /= s] *)
Definition div_all (a : list R) (s : R) : list R := map (fun x => x / s) a.

(** [np.where(cond)[0]]: the indices at which the condition holds, ascending. *)
Fixpoint where_from (p : R -> bool) (l : list R) (k : nat) : list nat :=
  match l with
  | [] => []
  | x :: t => if p x then k :: where_from p t (S k) else where_from p t (S k)
  end.

Definition np_where (p : R -> bool) (l : list R) : list nat := where_from p l 0.

Definition Rle_bool (x y : R) : bool := if Rle_dec x y then true else false.
Definition Rge_bool (x y : R) : bool := if Rge_dec x y then true else false.

(** [int(x)] on a float: truncation towards zero. *)
Definition py_int (x : R) : Z :=
  if Rle_dec 0 x then Int_part x else (- Int_part (- x))%Z.

(** ** rebin_by_arrays (response.py, lines 12-55) *)

(** Lines 51-52: the clipped overlap of output bin [i] with input bin [j],
    both given by their edge arrays. *)
Definition clipped_overlap (Eout_edges Ein_edges : list R) (i j : nat) : R :=
  let overlap := Rmin (nth (i + 1) Eout_edges 0) (nth (j + 1) Ein_edges 0)
                 - Rmax (nth i Eout_edges 0) (nth j Ein_edges 0) in
  if Rgt_dec overlap 0 then overlap else 0.

(** Lines 39-55: edges of both calibrations, then the double loop.  The
    inner loop accumulates into [counts_out[i]] starting from zero.  With a
    zero input step the program divides by zero (NaN or infinity); the
    statements below about values assume a non-zero input step. *)
Definition rebin_loops (counts_in : list R)
    (a0_in a1_in : R) (Nin : nat) (a0_out a1_out : R) (Nout : nat) : list R :=
  let Ein_edges :=
    linspace (a0_in - a1_in / 2) (a0_in - a1_in / 2 + a1_in * INR Nin) (Nin + 1) in
  let Eout_edges :=
    linspace (a0_out - a1_out / 2) (a0_out - a1_out / 2 + a1_out * INR Nout) (Nout + 1) in
  map (fun i =>
         fold_left
           (fun acc j =>
              acc + nth j counts_in 0 * clipped_overlap Eout_edges Ein_edges i j / a1_in)
           (seq 0 Nin) 0)
      (seq 0 Nout).

(** The whole function.  [Ein_array[1]] and [Eout_array[1]] raise
    [IndexError] on an array of fewer than two bin centres, and so does
    [counts_in[j]] when [counts_in] is shorter than [Ein_array]. *)
Definition rebin_by_arrays (counts_in Ein_array Eout_array : list R)
  : option (list R) :=
  let Nin := length Ein_array in
  e0 <- getitem Ein_array 0 ;;
  e1 <- getitem Ein_array 1 ;;
  let a0_in := e0 in
  let a1_in := e1 - e0 in
  let Nout := length Eout_array in
  o0 <- getitem Eout_array 0 ;;
  o1 <- getitem Eout_array 1 ;;
  let a0_out := o0 in
  let a1_out := o1 - o0 in
  if (length counts_in <? Nin)%nat then None
  else Some (rebin_loops counts_in a0_in a1_in Nin a0_out a1_out Nout).

(** ** E_compton (response.py, lines 58-73) *)

Definition E_compton (Eg theta : R) : R :=
  if Rgt_dec Eg (1 / 10)
  then Eg * Eg / 511 * (1 - cos theta) / (1 + Eg / 511 * (1 - cos theta))
  else Eg.

(** ** response (response.py, lines 76-291): statements of the row loop *)

(** Lines 179-193: the two calibration indices to interpolate between.
    [np.where(..)[0][-1]] and [np.where(..)[0][0]] raise [IndexError] on an
    empty selection, in which case the initial value is kept. *)
Definition bracket (Eg_arr : list R) (E_j : R) : nat * nat :=
  let N_Eg := length Eg_arr in
  let i_g_low := last (np_where (fun e => Rle_bool e E_j) Eg_arr) 0%nat in
  let i_g_high := hd N_Eg (np_where (fun e => Rge_bool e E_j) Eg_arr) in
  if (i_g_low =? i_g_high)%nat then
    if (0 <? i_g_low)%nat then ((i_g_low - 1)%nat, i_g_high)
    else (i_g_low, (i_g_high + 1)%nat)
  else (i_g_low, i_g_high).

(** Lines 210-223: a rebinned bracket spectrum and its four peak
    components, all divided by their common total. *)
Record normalized : Type := {
  n_cmp : list R;
  n_FE : R;
  n_SE : R;
  n_DE : R;
  n_c511 : R
}.

Definition normalize (cmp : list R) (FE_i SE_i DE_i c511_i : R) : normalized :=
  let sum_i := np_sum cmp + FE_i + SE_i + DE_i + c511_i in
  {| n_cmp := div_all cmp sum_i;
     n_FE := FE_i / sum_i;
     n_SE := SE_i / sum_i;
     n_DE := DE_i / sum_i;
     n_c511 := c511_i / sum_i |}.

(** Lines 231-232. *)
Definition Ece_of (E_j : R) : R := E_compton E_j 0.
Definition Ebsc_of (E_j : R) : R := E_j - Ece_of E_j.

(** Lines 234-235: [int((E - a0_out)/a1_out + 0.5)]. *)
Definition channel_of (E a0_out a1_out : R) : Z :=
  py_int ((E - a0_out) / a1_out + 1 / 2).

(** Line 243, the value written to [R[j,i]] below the back-scatter channel.
    [Eg_low] and [Eg_high] are not bound in the source; line 197 prints
    [Eg_array[i_g_low]] and [Eg_array[i_g_high]] under these names.  Here
    they are arguments. *)
Definition region_A (cmp_low cmp_high : list R) (E_j Eg_low Eg_high : R) (i : nat) : R :=
  nth i cmp_low 0
  + (nth i cmp_low 0 - nth i cmp_high 0) * (E_j - Eg_low) / (Eg_high - Eg_low).

(** Region A as the specification words it: interpolation from the low
    bracket spectrum towards the high one. *)
Definition region_A_spec (P_low P_high : list R) (E_j E_low E_high : R) (i : nat) : R :=
  nth i P_low 0
  + (nth i P_high 0 - nth i P_low 0) * (E_j - E_low) / (E_high - E_low).

(** ** Auxiliary definitions for the statements below *)

(** The calibration that lines 32-40 read off an array of bin centres: the
    step [a1], and the first and last bin edge handed to [np.linspace]. *)
Definition bin_width (E : list R) : R := nth 1 E 0 - nth 0 E 0.
Definition lower_edge (E : list R) : R := nth 0 E 0 - bin_width E / 2.
Definition upper_edge (E : list R) : R :=
  lower_edge E + bin_width E * INR (length E).

(** Finite sums [f 0 + ... + f (n-1)], to reason about the loops. *)
Fixpoint sum_upto (f : nat -> R) (n : nat) : R :=
  match n with
  | O => 0
  | S k => sum_upto f k + f k
  end.

(** [x] forced into the input bin [[a, b]]. *)
Definition clamp (a b x : R) : R := Rmax a (Rmin x b).

(** ** Further parts of [response] *)

(** Python exceptions raised while reading [resp.dat]: [ValueError] from
    [int(line)] or from the conversion of a data row, and the explicit
    [Exception("Error reading resp.dat")] of line 113. *)
Inductive py_exn : Type :=
  | ValueError
  | Error_reading_resp_dat.

Definition of_option {A : Type} (o : option A) : py_exn + A :=
  match o with
  | Some a => inr a
  | None => inl ValueError
  end.

(** Line 104: [line[0:22] == "# Next: Numer of Lines"]. *)
Definition marker : string := "# Next: Numer of Lines"%string.

Definition is_marker (line : string) : bool :=
  String.eqb (substring 0 22 line) marker.

(** Lines 100-108.  The file is the list of its lines, as [readline]
    returns them; at the end of the file [readline] returns the empty
    string.  [int_of] stands for Python's [int] on a string ([None] for
    [ValueError]).  Returns [Nlines] (or the exception) and the lines not
    read yet. *)
Fixpoint scan_for_count (int_of : string -> option Z) (lines : list string)
  : (py_exn + Z) * list string :=
  match lines with
  | [] => (inr (-1)%Z, [])
  | line :: rest =>
      if is_marker line then
        match rest with
        | [] => (of_option (int_of EmptyString), [])
        | count_line :: rest' => (of_option (int_of count_line), rest')
        end
      else scan_for_count int_of rest
  end.

(** Lines 115-119: [n] more calls of [readline], each line converted by
    [np.array(line.split(), dtype="double")], here [row_of]. *)
Fixpoint read_rows (row_of : string -> option (list R)) (n : nat)
    (lines : list string) : py_exn + list (list R) :=
  match n with
  | O => inr []
  | S n' =>
      match row_of (hd EmptyString lines) with
      | None => inl ValueError
      | Some row =>
          match read_rows row_of n' (tl lines) with
          | inl e => inl e
          | inr rows => inr (row :: rows)
          end
      end
  end.

(** Lines 97-119: the list [resp] of data rows read from [resp.dat]. *)
Definition read_resp_dat (int_of : string -> option Z)
    (row_of : string -> option (list R)) (lines : list string)
  : py_exn + list (list R) :=
  match scan_for_count int_of lines with
  | (inl e, _) => inl e
  | (inr Nlines, rest) =>
      match rest with
      | [] => inl Error_reading_resp_dat
      | _ :: rest' => read_rows row_of (Z.to_nat Nlines) rest'
      end
  end.

(** Line 149: the energy axis of the Compton spectra. *)
Definition Ecmp_array_of (a0_cmp a1_cmp : R) (N_cmp : nat) : list R :=
  linspace a0_cmp (a1_cmp * (INR N_cmp - 1)) N_cmp.

(** The array [k * c1 + c2] of two arrays of counts. *)
Definition lin_comb (k : R) (c1 c2 : list R) : list R :=
  map (fun p => k * fst p + snd p) (combine c1 c2).

(** Strictly ascending reference energies. *)
Definition ascending (l : list R) : Prop :=
  forall i j, (i < j)%nat -> (j < length l)%nat -> nth i l 0 < nth j l 0.


(** ** rebin_by_arrays in binary64

    The same function, lines 12-55, on IEEE binary64 numbers with
    round-to-nearest operations, to settle what the real-number model above
    cannot: whether a result is exact in the arithmetic the program runs. *)

Module B64.

(** A Python [int] (small, non-negative) converted to a float. *)
Fixpoint int_of_nat (n : nat) : int :=
  match n with
  | O => 0%uint63
  | S k => PrimInt63.add (int_of_nat k) 1%uint63
  end.

Definition float_of_nat (n : nat) : float := of_uint63 (int_of_nat n).

(** [np.linspace(start, stop, num)] as NumPy computes it:
    [step = (stop - start)/(num - 1)], the points are [k*step + start]
    (or [k/(num-1)*(stop - start) + start] when the step rounds to zero)
    and the last point is set to [stop] itself. *)
Definition linspace (start stop : float) (num : nat) : list float :=
  let div := float_of_nat (num - 1) in
  let delta := (stop - start)%float in
  let step := (delta / div)%float in
  map (fun k =>
         if andb (Nat.ltb 1 num) (Nat.eqb (S k) num) then stop
         else if Nat.ltb 1 num then
                if PrimFloat.eqb step 0%float
                then (float_of_nat k / div * delta + start)%float
                else (float_of_nat k * step + start)%float
              else (float_of_nat k * delta + start)%float)
      (seq 0 num).

(** [np.minimum] and [np.maximum]: a NaN operand is returned. *)
Definition np_minimum (a b : float) : float :=
  if is_nan a then a else if is_nan b then b
  else if PrimFloat.ltb b a then b else a.

Definition np_maximum (a b : float) : float :=
  if is_nan a then a else if is_nan b then b
  else if PrimFloat.ltb a b then b else a.

(** Lines 51-52. *)
Definition clipped_overlap (Eout_edges Ein_edges : list float) (i j : nat) : float :=
  let overlap :=
    (np_minimum (nth (i + 1) Eout_edges 0%float) (nth (j + 1) Ein_edges 0%float)
     - np_maximum (nth i Eout_edges 0%float) (nth j Ein_edges 0%float))%float in
  if PrimFloat.ltb 0%float overlap then overlap else 0%float.

(** Lines 32-55. *)
Definition rebin_by_arrays (counts_in Ein_array Eout_array : list float)
  : option (list float) :=
  let Nin := length Ein_array in
  e0 <- getitem Ein_array 0 ;;
  e1 <- getitem Ein_array 1 ;;
  let a0_in := e0 in
  let a1_in := (e1 - e0)%float in
  let Nout := length Eout_array in
  o0 <- getitem Eout_array 0 ;;
  o1 <- getitem Eout_array 1 ;;
  let a0_out := o0 in
  let a1_out := (o1 - o0)%float in
  let Ein_edges :=
    linspace (a0_in - a1_in / 2)%float
             (a0_in - a1_in / 2 + a1_in * float_of_nat Nin)%float (Nin + 1) in
  let Eout_edges :=
    linspace (a0_out - a1_out / 2)%float
             (a0_out - a1_out / 2 + a1_out * float_of_nat Nout)%float (Nout + 1) in
  if (length counts_in <? Nin)%nat then None
  else
    Some (map (fun i =>
                 fold_left
                   (fun acc j =>
                      (acc + nth j counts_in 0%float
                             * clipped_overlap Eout_edges Ein_edges i j / a1_in)%float)
                   (seq 0 Nin) 0%float)
              (seq 0 Nout)).

End B64.

(** ** Proof automation *)

(** Settles the comparisons, minima and maxima of closed real terms. *)
Ltac decide_R :=
  repeat match goal with
  | |- context [Rmin ?a ?b] =>
      first [ rewrite (Rmin_left a b) by lra | rewrite (Rmin_right a b) by lra ]
  | |- context [Rmax ?a ?b] =>
      first [ rewrite (Rmax_left a b) by lra | rewrite (Rmax_right a b) by lra ]
  | |- context [Rgt_dec ?a ?b] => destruct (Rgt_dec a b); [ try lra | try lra ]
  | |- context [Rlt_dec ?a ?b] => destruct (Rlt_dec a b); [ try lra | try lra ]
  | |- context [Rle_dec ?a ?b] => destruct (Rle_dec a b); [ try lra | try lra ]
  | |- context [Rge_dec ?a ?b] => destruct (Rge_dec a b); [ try lra | try lra ]
  end.

(** Unfolds a call of [rebin_by_arrays] on concrete arrays. *)
Ltac unfold_rebin :=
  unfold rebin_by_arrays, rebin_loops, linspace, clipped_overlap;
  cbn [bind getitem nth_error length Nat.ltb Nat.leb seq map fold_left nth
       Nat.add Nat.sub INR].

(** Evaluates the bracket search on concrete reference energies. *)
Ltac eval_bracket :=
  unfold bracket, np_where, Rle_bool, Rge_bool;
  cbn [where_from length];
  decide_R; reflexivity.

(** * Compton kinematics *)

Lemma E_compton_above (Eg theta : R) :
  Eg > 1 / 10 ->
  E_compton Eg theta
  = Eg * Eg / 511 * (1 - cos theta) / (1 + Eg / 511 * (1 - cos theta)).
Proof.
  intros H. unfold E_compton. destruct (Rgt_dec Eg (1 / 10)); [reflexivity | lra].
Qed.

Lemma E_compton_below (Eg theta : R) : Eg <= 1 / 10 -> E_compton Eg theta = Eg.
Proof.
  intros H. unfold E_compton. destruct (Rgt_dec Eg (1 / 10)); [lra | reflexivity].
Qed.

Lemma one_minus_cos_range (theta : R) : 0 <= 1 - cos theta <= 2.
Proof. pose proof (COS_bound theta). lra. Qed.

(** The recoil formula as a function of [x = 1 - cos theta]. *)
Lemma recoil_bounds (Eg x : R) :
  0 < Eg -> 0 <= x ->
  0 <= Eg * Eg / 511 * x / (1 + Eg / 511 * x) < Eg.
Proof.
  intros HE Hx.
  assert (Hb : 0 <= Eg / 511 * x) by (apply Rmult_le_pos; lra).
  assert (Hd : 0 < 1 + Eg / 511 * x) by lra.
  split.
  - apply Rmult_le_pos.
    + apply Rmult_le_pos; [apply Rmult_le_pos; nra | assumption].
    + left. apply Rinv_0_lt_compat. assumption.
  - apply Rmult_lt_reg_r with (1 + Eg / 511 * x); [assumption |].
    unfold Rdiv at 1. rewrite Rmult_assoc, Rinv_l by lra. nra.
Qed.

Lemma recoil_monotone (Eg x1 x2 : R) :
  0 < Eg -> 0 <= x1 -> x1 <= x2 ->
  Eg * Eg / 511 * x1 / (1 + Eg / 511 * x1)
  <= Eg * Eg / 511 * x2 / (1 + Eg / 511 * x2).
Proof.
  intros HE H1 H12.
  assert (Hb1 : 0 <= Eg / 511 * x1) by (apply Rmult_le_pos; lra).
  assert (Hb2 : 0 <= Eg / 511 * x2) by (apply Rmult_le_pos; lra).
  assert (Hdiff :
            Eg * Eg / 511 * x2 / (1 + Eg / 511 * x2)
            - Eg * Eg / 511 * x1 / (1 + Eg / 511 * x1)
            = Eg * Eg / 511 * (x2 - x1)
              * / ((1 + Eg / 511 * x1) * (1 + Eg / 511 * x2)))
    by (field; lra).
  assert (Hpos : 0 <= Eg * Eg / 511 * (x2 - x1)
                      * / ((1 + Eg / 511 * x1) * (1 + Eg / 511 * x2))).
  { apply Rmult_le_pos.
    - apply Rmult_le_pos; [nra | lra].
    - left. apply Rinv_0_lt_compat. apply Rmult_lt_0_compat; lra. }
  lra.
Qed.

Lemma E_compton_zero_angle (Eg : R) : Eg > 1 / 10 -> E_compton Eg 0 = 0.
Proof.
  intros H. rewrite E_compton_above by assumption.
  rewrite cos_0. unfold Rdiv. rewrite Rminus_diag. ring.
Qed.

(** C6: at zero scattering angle no energy is transferred when
    [Eg > 0.1], and at or below [0.1] the gamma energy is returned unchanged
    whatever the angle. *)
Theorem E_compton_boundary :
  (forall Eg, Eg > 1 / 10 -> E_compton Eg 0 = 0)
  /\ (forall Eg theta, Eg <= 1 / 10 -> E_compton Eg theta = Eg).
Proof.
  split.
  - intros Eg H. apply E_compton_zero_angle. assumption.
  - intros Eg theta H. apply E_compton_below. assumption.
Qed.

Lemma E_compton_boundary_witness :
  (1 > 1 / 10 /\ E_compton 1 0 = 0)
  /\ (0 <= 1 / 10 /\ E_compton 0 PI = 0).
Proof.
  split; split; try lra.
  - apply (proj1 E_compton_boundary). lra.
  - apply (proj2 E_compton_boundary). lra.
Defined.

(** C7: for a fixed [Eg > 0.1] the recoil energy does not decrease when
    the scattering angle grows within [[0, PI]]. *)
Theorem E_compton_monotone (Eg theta1 theta2 : R) :
  Eg > 1 / 10 ->
  0 <= theta1 -> theta1 <= theta2 -> theta2 <= PI ->
  E_compton Eg theta1 <= E_compton Eg theta2.
Proof.
  intros HE H0 H12 Hpi.
  rewrite !E_compton_above by assumption.
  assert (Hc : cos theta2 <= cos theta1) by (apply cos_decr_1; lra).
  pose proof (one_minus_cos_range theta1) as [Hx1 _].
  apply recoil_monotone; lra.
Qed.

Lemma E_compton_monotone_witness :
  511 > 1 / 10 /\ 0 <= 0 /\ 0 <= PI /\ PI <= PI
  /\ E_compton 511 0 <= E_compton 511 PI.
Proof.
  pose proof PI_RGT_0 as Hpi.
  repeat split; try lra.
  apply (E_compton_monotone 511 0 PI); lra.
Defined.

(** C10: for [Eg > 0.1] and an angle in [[0, PI]] the recoil energy lies
    in [[0, Eg)], so the back-scatter energy [Eg - E_compton Eg theta] is
    positive. *)
Theorem E_compton_range (Eg theta : R) :
  Eg > 1 / 10 -> 0 <= theta <= PI ->
  0 <= E_compton Eg theta < Eg /\ 0 < Eg - E_compton Eg theta.
Proof.
  intros HE _.
  rewrite E_compton_above by assumption.
  pose proof (one_minus_cos_range theta) as [Hx _].
  pose proof (recoil_bounds Eg (1 - cos theta)) as Hb.
  assert (H : 0 <= Eg * Eg / 511 * (1 - cos theta) / (1 + Eg / 511 * (1 - cos theta)) < Eg)
    by (apply Hb; lra).
  lra.
Qed.

Lemma E_compton_range_witness :
  511 > 1 / 10 /\ 0 <= PI <= PI
  /\ 0 <= E_compton 511 PI < 511 /\ 0 < 511 - E_compton 511 PI.
Proof.
  pose proof PI_RGT_0 as Hpi.
  split; [lra | split; [lra |]].
  apply (E_compton_range 511 PI); lra.
Defined.

(** * Rebinning *)

(** ** Finite sums *)

Lemma fold_left_seq_sum (f : nat -> R) (n : nat) :
  fold_left (fun acc j => acc + f j) (seq 0 n) 0 = sum_upto f n.
Proof.
  induction n as [| n IH]; [reflexivity |].
  rewrite seq_S, fold_left_app, IH. reflexivity.
Qed.

Lemma np_sum_map_seq (f : nat -> R) (n : nat) :
  np_sum (map f (seq 0 n)) = sum_upto f n.
Proof.
  unfold np_sum. induction n as [| n IH]; [reflexivity |].
  rewrite seq_S, map_app, fold_left_app, IH. reflexivity.
Qed.

Lemma map_nth_seq_id (l : list R) :
  map (fun j => nth j l 0) (seq 0 (length l)) = l.
Proof.
  apply nth_ext with (d := 0) (d' := 0).
  - rewrite length_map, length_seq. reflexivity.
  - intros k Hk. rewrite length_map, length_seq in Hk.
    rewrite nth_indep with (d' := nth 0%nat l 0) by (rewrite length_map, length_seq; exact Hk).
    rewrite (map_nth (fun j => nth j l 0) (seq 0 (length l)) 0%nat k).
    rewrite seq_nth by exact Hk. reflexivity.
Qed.

Lemma np_sum_as_sum_upto (l : list R) :
  np_sum l = sum_upto (fun j => nth j l 0) (length l).
Proof.
  rewrite <- np_sum_map_seq, map_nth_seq_id. reflexivity.
Qed.

Lemma sum_upto_ext (f g : nat -> R) (n : nat) :
  (forall k, (k < n)%nat -> f k = g k) -> sum_upto f n = sum_upto g n.
Proof.
  induction n as [| n IH]; intros H; [reflexivity |].
  simpl. rewrite IH by (intros k Hk; apply H; lia).
  rewrite (H n) by lia. reflexivity.
Qed.

Lemma sum_upto_plus (f g : nat -> R) (n : nat) :
  sum_upto (fun k => f k + g k) n = sum_upto f n + sum_upto g n.
Proof.
  induction n as [| n IH]; simpl; [lra | rewrite IH; lra].
Qed.

Lemma sum_upto_zero (n : nat) : sum_upto (fun _ => 0) n = 0.
Proof. induction n as [| n IH]; simpl; [reflexivity | rewrite IH; lra]. Qed.

Lemma sum_upto_scale (c a : R) (f : nat -> R) (n : nat) :
  sum_upto (fun k => c * f k / a) n = c * sum_upto f n / a.
Proof.
  induction n as [| n IH]; simpl.
  - unfold Rdiv. ring.
  - rewrite IH. unfold Rdiv. ring.
Qed.

Lemma sum_upto_swap (g : nat -> nat -> R) (n m : nat) :
  sum_upto (fun i => sum_upto (fun j => g i j) m) n
  = sum_upto (fun j => sum_upto (fun i => g i j) n) m.
Proof.
  induction n as [| n IH]; simpl.
  - rewrite sum_upto_zero. reflexivity.
  - rewrite IH, <- sum_upto_plus. reflexivity.
Qed.

Lemma sum_upto_telescope (F : nat -> R) (n : nat) :
  sum_upto (fun i => F (S i) - F i) n = F n - F 0%nat.
Proof.
  induction n as [| n IH]; simpl; [lra | rewrite IH; lra].
Qed.

Lemma sum_upto_single (f : nat -> R) (n i : nat) :
  (i < n)%nat ->
  (forall k, (k < n)%nat -> k <> i -> f k = 0) ->
  sum_upto f n = f i.
Proof.
  induction n as [| n IH]; intros Hi H; [lia |].
  simpl. destruct (Nat.eq_dec i n) as [-> | Hne].
  - rewrite (sum_upto_ext f (fun _ => 0)) by (intros k Hk; apply H; lia).
    rewrite sum_upto_zero. lra.
  - rewrite IH by (try lia; intros k Hk Hki; apply H; lia).
    rewrite (H n) by lia. lra.
Qed.

(** ** Bin edges *)

(** The edges computed at lines 39-40 are [lo + k * a1]. *)
Lemma linspace_edge (lo a1 : R) (N k : nat) :
  (0 < N)%nat -> (k <= N)%nat ->
  nth k (linspace lo (lo + a1 * INR N) (N + 1)) 0 = lo + INR k * a1.
Proof.
  intros HN Hk. unfold linspace.
  rewrite nth_indep with (d' := (fun k => lo + INR k * ((lo + a1 * INR N - lo) / INR (N + 1 - 1))) 0%nat)
    by (rewrite length_map, length_seq; lia).
  rewrite (map_nth (fun k => lo + INR k * ((lo + a1 * INR N - lo) / INR (N + 1 - 1)))).
  rewrite seq_nth by lia. simpl Nat.add.
  replace (N + 1 - 1)%nat with N by lia.
  assert (HN' : INR N <> 0) by (apply not_0_INR; lia).
  field. exact HN'.
Qed.

Lemma clip_as_clamp (a b x y : R) :
  a <= b -> x <= y ->
  (if Rgt_dec (Rmin y b - Rmax x a) 0 then Rmin y b - Rmax x a else 0)
  = clamp a b y - clamp a b x.
Proof.
  intros Hab Hxy. unfold clamp.
  destruct (Rle_dec y b) as [H1 | H1];
    [rewrite (Rmin_left y b) by lra | rewrite (Rmin_right y b) by lra];
    (destruct (Rle_dec x a) as [H2 | H2];
     [rewrite (Rmax_right x a) by lra | rewrite (Rmax_left x a) by lra]);
    (destruct (Rle_dec x b) as [H3 | H3];
     [rewrite (Rmin_left x b) by lra | rewrite (Rmin_right x b) by lra]);
    match goal with
    | |- context [Rgt_dec ?u ?v] => destruct (Rgt_dec u v)
    end;
    unfold Rmax;
    repeat match goal with
           | |- context [Rle_dec ?u ?v] => destruct (Rle_dec u v)
           end; lra.
Qed.

(** ** The calibration read off an array of bin centres (lines 32-40) *)

Lemma rebin_by_arrays_defined (counts_in Ein Eout : list R) :
  (2 <= length Ein)%nat -> (2 <= length Eout)%nat ->
  (length Ein <= length counts_in)%nat ->
  rebin_by_arrays counts_in Ein Eout
  = Some (rebin_loops counts_in (nth 0 Ein 0) (bin_width Ein) (length Ein)
                      (nth 0 Eout 0) (bin_width Eout) (length Eout)).
Proof.
  intros Hin Hout Hc. unfold rebin_by_arrays, bin_width.
  destruct Ein as [| e0 [| e1 tin]]; simpl in Hin; try lia.
  destruct Eout as [| o0 [| o1 tout]]; simpl in Hout; try lia.
  cbn [getitem nth_error bind nth].
  destruct (Nat.ltb_spec (length counts_in) (length (e0 :: e1 :: tin))) as [Hlt | _];
    [lia | reflexivity].
Qed.

Lemma rebin_by_arrays_short_out (counts_in Ein : list R) (o : R) :
  rebin_by_arrays counts_in Ein [o] = None.
Proof.
  unfold rebin_by_arrays.
  destruct Ein as [| e0 [| e1 tin]]; reflexivity.
Qed.

Lemma rebin_loops_sums (counts_in : list R)
    (a0_in a1_in : R) (Nin : nat) (a0_out a1_out : R) (Nout : nat) :
  rebin_loops counts_in a0_in a1_in Nin a0_out a1_out Nout
  = map (fun i =>
           sum_upto
             (fun j =>
                nth j counts_in 0
                * clipped_overlap
                    (linspace (a0_out - a1_out / 2)
                              (a0_out - a1_out / 2 + a1_out * INR Nout) (Nout + 1))
                    (linspace (a0_in - a1_in / 2)
                              (a0_in - a1_in / 2 + a1_in * INR Nin) (Nin + 1))
                    i j
                / a1_in)
             Nin)
        (seq 0 Nout).
Proof.
  unfold rebin_loops. apply map_ext. intros i.
  apply fold_left_seq_sum.
Qed.

Lemma clipped_overlap_edges (lo_o a1_o : R) (Nout : nat) (lo_i a1_i : R) (Nin i j : nat) :
  (i < Nout)%nat -> (j < Nin)%nat ->
  clipped_overlap (linspace lo_o (lo_o + a1_o * INR Nout) (Nout + 1))
                  (linspace lo_i (lo_i + a1_i * INR Nin) (Nin + 1)) i j
  = if Rgt_dec (Rmin (lo_o + INR (S i) * a1_o) (lo_i + INR (S j) * a1_i)
                - Rmax (lo_o + INR i * a1_o) (lo_i + INR j * a1_i)) 0
    then Rmin (lo_o + INR (S i) * a1_o) (lo_i + INR (S j) * a1_i)
         - Rmax (lo_o + INR i * a1_o) (lo_i + INR j * a1_i)
    else 0.
Proof.
  intros Hi Hj. unfold clipped_overlap.
  rewrite !linspace_edge by lia.
  rewrite !Nat.add_1_r. reflexivity.
Qed.

(** An input bin that lies within the range of the output edges is
    shared out completely among the output bins. *)
Lemma overlaps_cover_input_bin (lo_o a1_o : R) (Nout : nat) (lo_i a1_i : R) (Nin j : nat) :
  0 < a1_o -> 0 < a1_i -> (j < Nin)%nat ->
  lo_o <= lo_i -> lo_i + a1_i * INR Nin <= lo_o + a1_o * INR Nout ->
  sum_upto
    (fun i => clipped_overlap (linspace lo_o (lo_o + a1_o * INR Nout) (Nout + 1))
                              (linspace lo_i (lo_i + a1_i * INR Nin) (Nin + 1)) i j)
    Nout
  = a1_i.
Proof.
  intros Ho Hi Hj Hlo Hhi.
  set (a := lo_i + INR j * a1_i).
  set (b := lo_i + INR (S j) * a1_i).
  assert (Hj0 : 0 <= INR j) by apply pos_INR.
  assert (HjN : INR (S j) <= INR Nin) by (apply le_INR; lia).
  assert (Hab : b - a = a1_i) by (unfold a, b; rewrite S_INR; ring).
  rewrite (sum_upto_ext _ (fun i => clamp a b (lo_o + INR (S i) * a1_o)
                                    - clamp a b (lo_o + INR i * a1_o))).
  - rewrite (sum_upto_telescope (fun i => clamp a b (lo_o + INR i * a1_o))).
    unfold clamp. change (INR 0) with 0.
    assert (Hb : b <= lo_o + INR Nout * a1_o) by (unfold b; nra).
    assert (Ha : lo_o + 0 * a1_o <= a) by (unfold a; nra).
    rewrite (Rmin_right (lo_o + INR Nout * a1_o) b) by lra.
    rewrite (Rmin_left (lo_o + 0 * a1_o) b) by lra.
    rewrite (Rmax_right a b) by lra.
    rewrite (Rmax_left a (lo_o + 0 * a1_o)) by lra.
    lra.
  - intros i Hlt. rewrite clipped_overlap_edges by assumption.
    fold a b. apply clip_as_clamp; [lra |].
    rewrite S_INR. nra.
Qed.

(** On one and the same calibration, bin [i] overlaps only itself. *)
Lemma clipped_overlap_same_grid (lo a1 : R) (N i j : nat) :
  0 < a1 -> (i < N)%nat -> (j < N)%nat ->
  clipped_overlap (linspace lo (lo + a1 * INR N) (N + 1))
                  (linspace lo (lo + a1 * INR N) (N + 1)) i j
  = if Nat.eq_dec j i then a1 else 0.
Proof.
  intros Ha Hi Hj. rewrite clipped_overlap_edges by assumption.
  rewrite !S_INR.
  destruct (Nat.eq_dec j i) as [-> | Hne].
  - rewrite Rmin_left, Rmax_left by lra.
    destruct (Rgt_dec _ 0); lra.
  - destruct (Nat.lt_ge_cases j i) as [Hlt | Hge].
    + assert (H1 : INR j + 1 <= INR i) by (rewrite <- S_INR; apply le_INR; lia).
      rewrite Rmin_right, Rmax_left by nra.
      destruct (Rgt_dec _ 0); [nra | reflexivity].
    + assert (H1 : INR i + 1 <= INR j) by (rewrite <- S_INR; apply le_INR; lia).
      rewrite Rmin_left, Rmax_right by nra.
      destruct (Rgt_dec _ 0); [nra | reflexivity].
Qed.

Lemma rebin_loops_identity (counts : list R) (a0 a1 : R) :
  0 < a1 ->
  rebin_loops counts a0 a1 (length counts) a0 a1 (length counts) = counts.
Proof.
  intros Ha. rewrite rebin_loops_sums.
  transitivity (map (fun j => nth j counts 0) (seq 0 (length counts)));
    [| apply map_nth_seq_id].
  apply map_ext_in. intros i Hi. apply in_seq in Hi.
  rewrite (sum_upto_single _ (length counts) i).
  - rewrite clipped_overlap_same_grid by (try assumption; lia).
    destruct (Nat.eq_dec i i); [field; lra | contradiction].
  - lia.
  - intros k Hk Hne.
    rewrite clipped_overlap_same_grid by (try assumption; lia).
    destruct (Nat.eq_dec k i); [contradiction | unfold Rdiv; ring].
Qed.

Lemma rebin_loops_total (counts_in : list R)
    (a0_in a1_in a0_out a1_out : R) (Nout : nat) :
  0 < a1_in -> 0 < a1_out ->
  a0_out - a1_out / 2 <= a0_in - a1_in / 2 ->
  a0_in - a1_in / 2 + a1_in * INR (length counts_in)
  <= a0_out - a1_out / 2 + a1_out * INR Nout ->
  np_sum (rebin_loops counts_in a0_in a1_in (length counts_in) a0_out a1_out Nout)
  = np_sum counts_in.
Proof.
  intros Hi Ho Hlo Hhi.
  rewrite rebin_loops_sums, np_sum_map_seq, sum_upto_swap.
  rewrite np_sum_as_sum_upto.
  apply sum_upto_ext. intros j Hj.
  rewrite sum_upto_scale.
  rewrite overlaps_cover_input_bin by assumption.
  field. lra.
Qed.

(** ** Evaluation on concrete arrays *)

Lemma rebin_two_bins_onto_shifted :
  rebin_by_arrays [10; 10] [1 / 2; 3 / 2] [1; 2] = Some [10; 5].
Proof.
  unfold_rebin. decide_R. repeat f_equal; lra.
Qed.

Lemma rebin_loops_onto_one_bin :
  rebin_loops [10; 10] (1 / 2) 1 2 1 1 1 = [10].
Proof.
  unfold rebin_loops, linspace, clipped_overlap.
  cbn [seq map fold_left nth Nat.add Nat.sub INR].
  decide_R. repeat f_equal; lra.
Qed.

Lemma half_overlaps :
  let Ein_edges := linspace 0 2 3 in
  let Eout_edges := linspace (1 / 2) (3 / 2) 2 in
  10 * clipped_overlap Eout_edges Ein_edges 0 0 / 1 = 5
  /\ 10 * clipped_overlap Eout_edges Ein_edges 0 1 / 1 = 5.
Proof.
  unfold linspace, clipped_overlap.
  cbn [seq map nth Nat.add Nat.sub INR].
  split; decide_R; lra.
Qed.

Lemma rebin_drops_uncovered_bin :
  rebin_by_arrays [10; 20; 30] [1 / 2; 3 / 2; 5 / 2] [1 / 2; 3 / 2] = Some [10; 20].
Proof.
  unfold_rebin. decide_R. repeat f_equal; lra.
Qed.

(** ** Identity rebin *)

(** In exact arithmetic, on every array of at least two bin centres with a
    positive step, and every counts vector of the same length, rebinning onto
    the same array returns the counts unchanged. *)
Theorem rebin_identity (counts E : list R) :
  (2 <= length E)%nat -> length counts = length E -> 0 < bin_width E ->
  rebin_by_arrays counts E E = Some counts.
Proof.
  intros HE Hlen Hstep.
  rewrite rebin_by_arrays_defined by lia.
  rewrite <- Hlen. rewrite rebin_loops_identity by assumption.
  reflexivity.
Qed.

(** On a one-bin grid the step cannot be read off the single bin centre and
    the call raises [IndexError]. *)
Lemma rebin_identity_one_bin_fails :
  rebin_by_arrays [10] [1] [1] <> Some [10].
Proof.
  rewrite rebin_by_arrays_short_out. discriminate.
Qed.

(** ** Half-overlap example *)

(** C9 as stated: the one-bin output grid of the example is given to the
    function as the array of its single centre, and the call raises
    [IndexError] where the claim promises [[10.0]]. *)
Lemma rebin_half_overlap_one_bin_fails :
  rebin_by_arrays [10; 10] [1 / 2; 3 / 2] [1] <> Some [10].
Proof.
  rewrite rebin_by_arrays_short_out. discriminate.
Qed.

(** C9 (amended): with a second output bin, so that the step 1 can be read
    off the centres 1.0 and 2.0, the first output bin receives
    [10 * 0.5 / 1 = 5] from each of the two input bins, 10 in all, and the
    second receives 5; the loops of lines 39-55 run on the one-bin calibration
    itself return [[10]]. *)
Theorem rebin_half_overlap :
  rebin_by_arrays [10; 10] [1 / 2; 3 / 2] [1; 2] = Some [10; 5]
  /\ rebin_loops [10; 10] (1 / 2) 1 2 1 1 1 = [10]
  /\ 10 * clipped_overlap (linspace (1 / 2) (3 / 2) 2) (linspace 0 2 3) 0 0 / 1 = 5
  /\ 10 * clipped_overlap (linspace (1 / 2) (3 / 2) 2) (linspace 0 2 3) 0 1 / 1 = 5.
Proof.
  split; [exact rebin_two_bins_onto_shifted |].
  split; [exact rebin_loops_onto_one_bin |].
  exact half_overlaps.
Qed.

(** ** Count conservation *)

(** When the range covered by the input bins is a subset of the range
    covered by the output bins, the call succeeds and, in exact arithmetic,
    the total count is conserved. *)
Theorem rebin_conserves_counts (counts_in Ein Eout : list R) :
  length counts_in = length Ein ->
  (2 <= length Ein)%nat -> (2 <= length Eout)%nat ->
  0 < bin_width Ein -> 0 < bin_width Eout ->
  lower_edge Eout <= lower_edge Ein ->
  upper_edge Ein <= upper_edge Eout ->
  exists counts_out,
    rebin_by_arrays counts_in Ein Eout = Some counts_out
    /\ np_sum counts_out = np_sum counts_in.
Proof.
  intros Hlen Hin Hout Hsi Hso Hlo Hhi.
  eexists. split.
  - apply rebin_by_arrays_defined; lia.
  - rewrite <- Hlen. apply rebin_loops_total; try assumption.
    rewrite Hlen. exact Hhi.
Qed.

Lemma rebin_conserves_counts_witness :
  exists counts_out,
    rebin_by_arrays [10; 20] [1; 2] [0; 2; 4] = Some counts_out
    /\ np_sum counts_out = np_sum [10; 20].
Proof.
  apply (rebin_conserves_counts [10; 20] [1; 2] [0; 2; 4]);
    unfold upper_edge, lower_edge, bin_width; cbn [nth length INR];
    try reflexivity; try lia; lra.
Defined.

(** * The bracket search *)

Lemma where_from_bound (p : R -> bool) (l : list R) (k i : nat) :
  In i (where_from p l k) -> (k <= i < k + length l)%nat.
Proof.
  revert k. induction l as [| x t IH]; intros k Hin; simpl in *.
  - contradiction.
  - destruct (p x).
    + destruct Hin as [<- | Hin]; [lia | apply IH in Hin; lia].
    + apply IH in Hin. lia.
Qed.

Lemma where_from_none (p : R -> bool) (l : list R) (k : nat) :
  Forall (fun x => p x = false) l -> where_from p l k = [].
Proof.
  intros H. revert k. induction H as [| x t Hx _ IH]; intros k; simpl.
  - reflexivity.
  - rewrite Hx. apply IH.
Qed.

Lemma where_from_some (p : R -> bool) (l : list R) (k : nat) :
  Exists (fun x => p x = true) l -> where_from p l k <> [].
Proof.
  intros H. revert k. induction H as [x t Hx | x t _ IH]; intros k; simpl.
  - rewrite Hx. discriminate.
  - destruct (p x); [discriminate | apply IH].
Qed.

Lemma last_in_list (l : list nat) (d : nat) : l <> [] -> In (last l d) l.
Proof.
  induction l as [| x t IH]; intros H; [contradiction |].
  destruct t as [| y t'].
  - left. reflexivity.
  - right. apply IH. discriminate.
Qed.

Lemma hd_in_list (l : list nat) (d : nat) : l <> [] -> In (hd d l) l.
Proof.
  destruct l; intros H; [contradiction | left; reflexivity].
Qed.

Lemma i_g_low_in_range (Eg : list R) (E_j : R) :
  Eg <> [] ->
  (last (np_where (fun e => Rle_bool e E_j) Eg) 0%nat < length Eg)%nat.
Proof.
  intros Hne.
  destruct (np_where (fun e => Rle_bool e E_j) Eg) as [| i t] eqn:HL.
  - simpl. destruct Eg; [contradiction | simpl; lia].
  - assert (Hin : In (last (i :: t) 0%nat) (i :: t))
      by (apply last_in_list; discriminate).
    assert (Hin' : In (last (i :: t) 0%nat) (where_from (fun e => Rle_bool e E_j) Eg 0))
      by (unfold np_where in HL; rewrite HL; exact Hin).
    apply where_from_bound in Hin'. lia.
Qed.

(** Whenever some reference energy is at or above [E_j], the search ends on
    two distinct indices inside the calibration set. *)
Lemma bracket_in_range (Eg : list R) (E_j : R) :
  (2 <= length Eg)%nat ->
  Exists (fun e => e >= E_j) Eg ->
  (fst (bracket Eg E_j) < length Eg)%nat
  /\ (snd (bracket Eg E_j) < length Eg)%nat
  /\ fst (bracket Eg E_j) <> snd (bracket Eg E_j).
Proof.
  intros HN Hex.
  assert (Hne : Eg <> []) by (destruct Eg; [simpl in HN; lia | discriminate]).
  pose proof (i_g_low_in_range Eg E_j Hne) as Hlow.
  assert (Hhigh : (hd (length Eg) (np_where (fun e => Rge_bool e E_j) Eg) < length Eg)%nat).
  { assert (Hsome : np_where (fun e => Rge_bool e E_j) Eg <> []).
    { apply where_from_some. apply Exists_exists in Hex as [x [Hin Hx]].
      apply Exists_exists. exists x. split; [assumption |].
      unfold Rge_bool. destruct (Rge_dec x E_j); [reflexivity | contradiction]. }
    apply (hd_in_list _ (length Eg)) in Hsome.
    unfold np_where in Hsome at 2. apply where_from_bound in Hsome. lia. }
  unfold bracket.
  destruct (Nat.eqb_spec (last (np_where (fun e => Rle_bool e E_j) Eg) 0%nat)
                         (hd (length Eg) (np_where (fun e => Rge_bool e E_j) Eg)))
    as [Heq | Hneq].
  - destruct (Nat.ltb_spec 0 (last (np_where (fun e => Rle_bool e E_j) Eg) 0%nat));
      simpl; lia.
  - simpl. auto.
Qed.

(** Above every reference energy the upper index keeps its initial value
    [N_Eg], one past the last calibration entry. *)
Lemma bracket_above_all (Eg : list R) (E_j : R) :
  Eg <> [] ->
  Forall (fun e => e < E_j) Eg ->
  snd (bracket Eg E_j) = length Eg.
Proof.
  intros Hne Hall.
  pose proof (i_g_low_in_range Eg E_j Hne) as Hlow.
  assert (Hnone : np_where (fun e => Rge_bool e E_j) Eg = []).
  { apply where_from_none. eapply Forall_impl; [| exact Hall].
    intros x Hx. simpl in Hx. unfold Rge_bool.
    destruct (Rge_dec x E_j); [lra | reflexivity]. }
  unfold bracket. rewrite Hnone. simpl hd.
  destruct (Nat.eqb_spec (last (np_where (fun e => Rle_bool e E_j) Eg) 0%nat) (length Eg));
    [lia | reflexivity].
Qed.

Lemma bracket_between : bracket [1000; 1500] 1250 = (0%nat, 1%nat).
Proof. eval_bracket. Qed.

Lemma bracket_below : bracket [1000; 1500] 500 = (0%nat, 1%nat).
Proof. eval_bracket. Qed.

Lemma bracket_on_top_entry : bracket [1000; 1500] 1500 = (0%nat, 1%nat).
Proof. eval_bracket. Qed.

Lemma bracket_above : bracket [1000; 1500] 2000 = (1%nat, 2%nat).
Proof. eval_bracket. Qed.

(** C8 at the failing input: with reference energies 1000 and 1500 and the
    output energy 2000 above both, the search returns the pair (1, 2); index
    2 is outside the two-entry calibration set and reading it raises
    [IndexError].  Below the lowest reference energy the pair is clamped to
    (0, 1) as the claim says. *)
Theorem bracket_top_end_out_of_range :
  bracket [1000; 1500] 2000 = (1%nat, 2%nat)
  /\ getitem [1000; 1500] (snd (bracket [1000; 1500] 2000)) = None
  /\ bracket [1000; 1500] 500 = (0%nat, 1%nat).
Proof.
  rewrite bracket_above. repeat split. exact bracket_below.
Qed.

(** * The row loop *)

(** ** Compton edge and back-scatter energy *)

Lemma E_compton_back_scatter (Eg : R) :
  Eg > 1 / 10 -> E_compton Eg PI = 2 * Eg * Eg / (511 + 2 * Eg).
Proof.
  intros H. rewrite E_compton_above by assumption.
  rewrite cos_PI. field; try split; lra.
Qed.

(** What lines 231-232 compute above the 0.1 keV cut: no Compton edge at
    all, and a back-scatter energy equal to the incident energy. *)
Lemma Ece_Ebsc_computed (E_j : R) :
  E_j > 1 / 10 -> Ece_of E_j = 0 /\ Ebsc_of E_j = E_j.
Proof.
  intros H. unfold Ebsc_of, Ece_of.
  rewrite E_compton_zero_angle by assumption. split; lra.
Qed.

(** C4 at the failing input [E = 511]: the builder's Compton edge is 0 and
    its back-scatter energy is 511, where the recoil energy at angle [PI]
    is 1022/3 and the incident energy less that is 511/3. *)
Theorem compton_edge_uses_zero_angle :
  Ece_of 511 = 0
  /\ E_compton 511 PI = 1022 / 3
  /\ Ebsc_of 511 = 511
  /\ 511 - E_compton 511 PI = 511 / 3.
Proof.
  destruct (Ece_Ebsc_computed 511) as [Hce Hbsc]; [lra |].
  rewrite E_compton_back_scatter by lra.
  repeat split; try assumption; lra.
Qed.

(** ** The fan-method range *)

Lemma Int_part_monotone (x y : R) : x <= y -> (Int_part x <= Int_part y)%Z.
Proof.
  intros Hxy.
  destruct (base_Int_part x) as [Hx1 Hx2].
  destruct (base_Int_part y) as [Hy1 Hy2].
  assert (H : IZR (Int_part x) < IZR (Int_part y + 1)) by (rewrite plus_IZR; lra).
  apply lt_IZR in H. lia.
Qed.

Lemma Int_part_nonneg (x : R) : 0 <= x -> (0 <= Int_part x)%Z.
Proof.
  intros Hx. destruct (base_Int_part x) as [_ H2].
  assert (H : IZR (-1) < IZR (Int_part x)) by lra.
  apply lt_IZR in H. lia.
Qed.

Lemma py_int_monotone (x y : R) : x <= y -> (py_int x <= py_int y)%Z.
Proof.
  intros Hxy. unfold py_int.
  destruct (Rle_dec 0 x) as [Hx | Hx], (Rle_dec 0 y) as [Hy | Hy].
  - apply Int_part_monotone. assumption.
  - lra.
  - assert (H1 : (0 <= Int_part (- x))%Z) by (apply Int_part_nonneg; lra).
    assert (H2 : (0 <= Int_part y)%Z) by (apply Int_part_nonneg; lra).
    lia.
  - assert (H : (Int_part (- y) <= Int_part (- x))%Z)
      by (apply Int_part_monotone; lra).
    lia.
Qed.

(** On an ascending output grid the Compton-edge channel computed at line
    234 is never above the back-scatter channel of line 235, so the loop of
    lines 247-257 over [range(i_bsc_out, i_ce_out)] has no iteration. *)
Lemma fan_range_empty (E_j a0_out a1_out : R) :
  0 < a1_out -> E_j > 1 / 10 ->
  (channel_of (Ece_of E_j) a0_out a1_out
   <= channel_of (Ebsc_of E_j) a0_out a1_out)%Z.
Proof.
  intros Ha HE.
  destruct (Ece_Ebsc_computed E_j HE) as [-> ->].
  unfold channel_of. apply py_int_monotone.
  apply Rplus_le_compat_r.
  unfold Rdiv. apply Rmult_le_compat_r.
  - left. apply Rinv_0_lt_compat. assumption.
  - lra.
Qed.

(** ** Region A *)

(** Line 243 steps away from the high bracket spectrum: it equals the
    interpolation formula with the opposite sign on the correction. *)
Lemma region_A_mirrors_spec (cmp_low cmp_high : list R) (E_j Eg_low Eg_high : R) (i : nat) :
  region_A cmp_low cmp_high E_j Eg_low Eg_high i
  = 2 * nth i cmp_low 0 - region_A_spec cmp_low cmp_high E_j Eg_low Eg_high i.
Proof.
  unfold region_A, region_A_spec, Rdiv. ring.
Qed.

(** C3 at the failing input: normalized bracket values 1/4 and 3/8 in
    channel 0, reference energies 1000 and 1500, output energy 1250.  The
    claimed interpolation gives 5/16; line 243 gives 3/16. *)
Theorem region_A_sign :
  region_A [1 / 4; 1 / 4] [3 / 8; 1 / 8] 1250 1000 1500 0 = 3 / 16
  /\ region_A_spec [1 / 4; 1 / 4] [3 / 8; 1 / 8] 1250 1000 1500 0 = 5 / 16.
Proof.
  unfold region_A, region_A_spec. cbn [nth]. split; lra.
Qed.

(** ** Normalization of a bracket spectrum *)

Lemma fold_left_Rplus_acc (l : list R) (a : R) :
  fold_left Rplus l a = a + fold_left Rplus l 0.
Proof.
  revert a. induction l as [| x t IH]; intros a; simpl.
  - lra.
  - rewrite (IH (a + x)), (IH (0 + x)). lra.
Qed.

Lemma np_sum_cons (x : R) (l : list R) : np_sum (x :: l) = x + np_sum l.
Proof.
  unfold np_sum. simpl. rewrite fold_left_Rplus_acc. lra.
Qed.

Lemma np_sum_div_all (l : list R) (s : R) : np_sum (div_all l s) = np_sum l / s.
Proof.
  induction l as [| x t IH].
  - unfold np_sum, Rdiv. simpl. ring.
  - simpl div_all. rewrite !np_sum_cons, IH. unfold Rdiv. ring.
Qed.

(** Lines 210-223 do what their comment says: continuum and peak components
    together sum to one after the division. *)
Lemma normalize_total (cmp : list R) (FE_i SE_i DE_i c511_i : R) :
  np_sum cmp + FE_i + SE_i + DE_i + c511_i <> 0 ->
  let P := normalize cmp FE_i SE_i DE_i c511_i in
  np_sum (n_cmp P) + n_FE P + n_SE P + n_DE P + n_c511 P = 1.
Proof.
  intros Hs. unfold normalize. cbn [n_cmp n_FE n_SE n_DE n_c511].
  rewrite np_sum_div_all. field. exact Hs.
Qed.

(** * Further properties of the rebinning *)

Lemma sum_upto_nonneg (f : nat -> R) (n : nat) :
  (forall k, (k < n)%nat -> 0 <= f k) -> 0 <= sum_upto f n.
Proof.
  induction n as [| n IH]; intros H; simpl.
  - lra.
  - assert (0 <= sum_upto f n) by (apply IH; intros k Hk; apply H; lia).
    assert (0 <= f n) by (apply H; lia). lra.
Qed.

Lemma sum_upto_le (f g : nat -> R) (n : nat) :
  (forall k, (k < n)%nat -> f k <= g k) -> sum_upto f n <= sum_upto g n.
Proof.
  induction n as [| n IH]; intros H; simpl.
  - lra.
  - assert (sum_upto f n <= sum_upto g n) by (apply IH; intros k Hk; apply H; lia).
    assert (f n <= g n) by (apply H; lia). lra.
Qed.

Lemma clipped_overlap_nonneg (Eout_edges Ein_edges : list R) (i j : nat) :
  0 <= clipped_overlap Eout_edges Ein_edges i j.
Proof.
  unfold clipped_overlap. cbv zeta.
  match goal with |- context [Rgt_dec ?a ?b] => destruct (Rgt_dec a b) end; lra.
Qed.

Lemma nth_nonneg (l : list R) (j : nat) :
  Forall (fun c => 0 <= c) l -> 0 <= nth j l 0.
Proof.
  intros H. revert j. induction H as [| x t Hx _ IH]; intros [| j]; simpl;
    try lra; try assumption. apply IH.
Qed.

Lemma map_seq_const (f : nat -> R) (c : R) (n : nat) :
  (forall k, (k < n)%nat -> f k = c) -> map f (seq 0 n) = repeat c n.
Proof.
  intros H. apply nth_ext with (d := f 0%nat) (d' := c).
  - rewrite length_map, length_seq, repeat_length. reflexivity.
  - intros k Hk. rewrite length_map, length_seq in Hk.
    rewrite map_nth, seq_nth by assumption. simpl.
    rewrite nth_repeat. apply H. assumption.
Qed.

Lemma rebin_by_arrays_inv (counts_in Ein Eout out : list R) :
  rebin_by_arrays counts_in Ein Eout = Some out ->
  (2 <= length Ein)%nat /\ (2 <= length Eout)%nat
  /\ (length Ein <= length counts_in)%nat
  /\ out = rebin_loops counts_in (nth 0 Ein 0) (bin_width Ein) (length Ein)
                       (nth 0 Eout 0) (bin_width Eout) (length Eout).
Proof.
  intros H.
  destruct Ein as [| e0 [| e1 tin]]; try discriminate.
  destruct Eout as [| o0 [| o1 tout]]; try discriminate.
  assert (Hlen : (length (e0 :: e1 :: tin) <= length counts_in)%nat).
  { unfold rebin_by_arrays in H. cbn [getitem nth_error bind] in H.
    destruct (Nat.ltb_spec (length counts_in) (length (e0 :: e1 :: tin)));
      [discriminate | assumption]. }
  rewrite rebin_by_arrays_defined in H by (simpl in *; lia).
  injection H as <-. simpl length in *. repeat split; try lia.
Qed.

(** The call raises [IndexError] exactly when one of the two energy arrays
    has fewer than two entries or the counts are shorter than the input
    array; otherwise it returns one value per output bin centre. *)
Theorem rebin_by_arrays_error_iff (counts_in Ein Eout : list R) :
  (rebin_by_arrays counts_in Ein Eout = None
   <-> (length Ein < 2)%nat \/ (length Eout < 2)%nat
       \/ (length counts_in < length Ein)%nat)
  /\ (forall out, rebin_by_arrays counts_in Ein Eout = Some out ->
                  length out = length Eout).
Proof.
  split.
  - split.
    + intros HN.
      destruct (Nat.lt_ge_cases (length Ein) 2) as [| H1]; [auto |].
      destruct (Nat.lt_ge_cases (length Eout) 2) as [| H2]; [auto |].
      destruct (Nat.lt_ge_cases (length counts_in) (length Ein)) as [| H3]; [auto |].
      rewrite rebin_by_arrays_defined in HN by assumption. discriminate.
    + intros H.
      destruct (rebin_by_arrays counts_in Ein Eout) as [out |] eqn:E; [| reflexivity].
      apply rebin_by_arrays_inv in E. lia.
  - intros out H. apply rebin_by_arrays_inv in H as (_ & _ & _ & ->).
    unfold rebin_loops. rewrite length_map, length_seq. reflexivity.
Qed.

(** Counts are never made negative: non-negative input counts on an
    ascending input array give non-negative output counts. *)
Theorem rebin_nonnegative (counts_in Ein Eout out : list R) :
  rebin_by_arrays counts_in Ein Eout = Some out ->
  Forall (fun c => 0 <= c) counts_in ->
  0 < bin_width Ein ->
  Forall (fun c => 0 <= c) out.
Proof.
  intros H Hc Hstep.
  apply rebin_by_arrays_inv in H as (_ & _ & _ & ->).
  rewrite rebin_loops_sums. apply Forall_forall. intros x Hx.
  apply in_map_iff in Hx as [i [<- _]].
  apply sum_upto_nonneg. intros j _.
  apply Rmult_le_pos; [| left; apply Rinv_0_lt_compat; assumption].
  apply Rmult_le_pos; [apply nth_nonneg; assumption | apply clipped_overlap_nonneg].
Qed.

Lemma rebin_nonnegative_witness :
  Forall (fun c => 0 <= c) [10; 5].
Proof.
  apply (rebin_nonnegative [10; 10] [1 / 2; 3 / 2] [1; 2] [10; 5]).
  - exact rebin_two_bins_onto_shifted.
  - repeat constructor; lra.
  - unfold bin_width. simpl. lra.
Defined.

(** The overlaps of one input bin with all output bins never add up to more
    than the width of the input bin. *)
Lemma overlaps_at_most_input_bin (lo_o a1_o : R) (Nout : nat) (lo_i a1_i : R) (Nin j : nat) :
  0 < a1_o -> 0 < a1_i -> (j < Nin)%nat ->
  sum_upto
    (fun i => clipped_overlap (linspace lo_o (lo_o + a1_o * INR Nout) (Nout + 1))
                              (linspace lo_i (lo_i + a1_i * INR Nin) (Nin + 1)) i j)
    Nout
  <= a1_i.
Proof.
  intros Ho Hi Hj.
  set (a := lo_i + INR j * a1_i).
  set (b := lo_i + INR (S j) * a1_i).
  assert (Hab : b - a = a1_i) by (unfold a, b; rewrite S_INR; ring).
  rewrite (sum_upto_ext _ (fun i => clamp a b (lo_o + INR (S i) * a1_o)
                                    - clamp a b (lo_o + INR i * a1_o))).
  - rewrite (sum_upto_telescope (fun i => clamp a b (lo_o + INR i * a1_o))).
    unfold clamp.
    assert (H1 : Rmax a (Rmin (lo_o + INR Nout * a1_o) b) <= b)
      by (apply Rmax_lub; [lra | apply Rmin_r]).
    assert (H2 : a <= Rmax a (Rmin (lo_o + INR 0 * a1_o) b)) by apply Rmax_l.
    lra.
  - intros i Hlt. rewrite clipped_overlap_edges by assumption.
    fold a b. apply clip_as_clamp; [lra |].
    rewrite S_INR. nra.
Qed.

(** Counts are lost, never created: on ascending arrays and non-negative
    counts the total of the output does not exceed the total of the input. *)
Theorem rebin_total_at_most (counts_in Ein Eout out : list R) :
  rebin_by_arrays counts_in Ein Eout = Some out ->
  length counts_in = length Ein ->
  Forall (fun c => 0 <= c) counts_in ->
  0 < bin_width Ein -> 0 < bin_width Eout ->
  np_sum out <= np_sum counts_in.
Proof.
  intros H Hlen Hc Hsi Hso.
  apply rebin_by_arrays_inv in H as (_ & _ & _ & ->).
  rewrite rebin_loops_sums, np_sum_map_seq, sum_upto_swap.
  rewrite np_sum_as_sum_upto, Hlen.
  apply sum_upto_le. intros j Hj.
  rewrite sum_upto_scale.
  pose proof (overlaps_at_most_input_bin
                (nth 0 Eout 0 - bin_width Eout / 2) (bin_width Eout) (length Eout)
                (nth 0 Ein 0 - bin_width Ein / 2) (bin_width Ein) (length Ein) j
                Hso Hsi Hj) as Hle.
  pose proof (nth_nonneg counts_in j Hc) as Hnn.
  apply Rmult_le_reg_r with (bin_width Ein); [assumption |].
  unfold Rdiv. rewrite Rmult_assoc, Rinv_l, Rmult_1_r by lra.
  apply Rmult_le_compat_l; assumption.
Qed.

Lemma rebin_total_at_most_witness :
  np_sum [10; 20] <= np_sum [10; 20; 30].
Proof.
  apply (rebin_total_at_most [10; 20; 30] [1 / 2; 3 / 2; 5 / 2] [1 / 2; 3 / 2] [10; 20]).
  - exact rebin_drops_uncovered_bin.
  - reflexivity.
  - repeat constructor; lra.
  - unfold bin_width. simpl. lra.
  - unfold bin_width. simpl. lra.
Defined.

Lemma nth_map_seq (f : nat -> R) (n i : nat) :
  (i < n)%nat -> nth i (map f (seq 0 n)) 0 = f i.
Proof.
  intros Hi.
  rewrite (nth_indep _ 0 (f 0%nat)) by (rewrite length_map, length_seq; assumption).
  rewrite map_nth, seq_nth by assumption. reflexivity.
Qed.

Lemma sum_upto_lin (k : R) (f g : nat -> R) (n : nat) :
  sum_upto (fun j => k * f j + g j) n = k * sum_upto f n + sum_upto g n.
Proof.
  induction n as [| n IH]; simpl; [lra | rewrite IH; lra].
Qed.

Lemma nth_lin_comb (k : R) (c1 c2 : list R) (j : nat) :
  length c1 = length c2 ->
  nth j (lin_comb k c1 c2) 0 = k * nth j c1 0 + nth j c2 0.
Proof.
  revert c2 j. induction c1 as [| x t IH]; intros [| y u] j Hlen;
    simpl in Hlen; try discriminate.
  - destruct j; simpl; lra.
  - destruct j as [| j]; simpl; [reflexivity |].
    apply IH. lia.
Qed.

Lemma length_lin_comb (k : R) (c1 c2 : list R) :
  length c1 = length c2 -> length (lin_comb k c1 c2) = length c1.
Proof.
  intros H. unfold lin_comb. rewrite length_map, length_combine. lia.
Qed.

(** Rebinning is linear in the counts: the rebinned [k * c1 + c2] is [k]
    times the rebinned [c1] plus the rebinned [c2]. *)
Theorem rebin_linear (k : R) (c1 c2 Ein Eout out1 out2 : list R) :
  length c1 = length c2 ->
  rebin_by_arrays c1 Ein Eout = Some out1 ->
  rebin_by_arrays c2 Ein Eout = Some out2 ->
  rebin_by_arrays (lin_comb k c1 c2) Ein Eout = Some (lin_comb k out1 out2).
Proof.
  intros Hlen H1 H2.
  apply rebin_by_arrays_inv in H1 as (Hin & Hout & Hc1 & ->).
  apply rebin_by_arrays_inv in H2 as (_ & _ & _ & ->).
  rewrite rebin_by_arrays_defined
    by (try assumption; rewrite length_lin_comb by assumption; assumption).
  f_equal. rewrite !rebin_loops_sums.
  apply nth_ext with (d := 0) (d' := 0).
  - rewrite length_lin_comb by (rewrite !length_map; reflexivity).
    rewrite !length_map. reflexivity.
  - intros i Hi. rewrite length_map, length_seq in Hi.
    rewrite nth_lin_comb by (rewrite !length_map; reflexivity).
    rewrite !nth_map_seq by assumption.
    rewrite <- sum_upto_lin.
    apply sum_upto_ext. intros j _.
    rewrite nth_lin_comb by assumption. unfold Rdiv. ring.
Qed.

Lemma rebin_linear_witness :
  rebin_by_arrays (lin_comb 2 [10; 10] [10; 10]) [1 / 2; 3 / 2] [1; 2]
  = Some (lin_comb 2 [10; 5] [10; 5]).
Proof.
  apply (rebin_linear 2 [10; 10] [10; 10] [1 / 2; 3 / 2] [1; 2] [10; 5] [10; 5]).
  - reflexivity.
  - exact rebin_two_bins_onto_shifted.
  - exact rebin_two_bins_onto_shifted.
Defined.

(** ** Arrays and ranges on which nothing is transferred *)

Lemma rebin_loops_no_overlap (counts_in : list R)
    (a0_in a1_in : R) (Nin : nat) (a0_out a1_out : R) (Nout : nat) :
  (forall i j, (i < Nout)%nat -> (j < Nin)%nat ->
     Rmin (a0_out - a1_out / 2 + INR (S i) * a1_out)
          (a0_in - a1_in / 2 + INR (S j) * a1_in)
     - Rmax (a0_out - a1_out / 2 + INR i * a1_out)
            (a0_in - a1_in / 2 + INR j * a1_in) <= 0) ->
  rebin_loops counts_in a0_in a1_in Nin a0_out a1_out Nout = repeat 0 Nout.
Proof.
  intros H. rewrite rebin_loops_sums.
  apply map_seq_const. intros i Hi.
  rewrite (sum_upto_ext _ (fun _ => 0)); [apply sum_upto_zero |].
  intros j Hj. rewrite clipped_overlap_edges by assumption.
  specialize (H i j Hi Hj).
  match goal with |- context [Rgt_dec ?a ?b] => destruct (Rgt_dec a b) end;
    [lra | unfold Rdiv; ring].
Qed.

(** An energy array given in descending order, as input or as output, makes
    every output bin zero, provided the input step is not zero (where the
    program would divide by zero): all counts are lost without an error. *)
Theorem rebin_descending_array_gives_zeros (counts_in Ein Eout out : list R) :
  rebin_by_arrays counts_in Ein Eout = Some out ->
  bin_width Ein <> 0 ->
  bin_width Ein < 0 \/ bin_width Eout < 0 ->
  out = repeat 0 (length Eout).
Proof.
  intros H _ Hneg.
  apply rebin_by_arrays_inv in H as (_ & _ & _ & ->).
  apply rebin_loops_no_overlap. intros i j _ _.
  rewrite !S_INR.
  set (x := nth 0 Eout 0 - bin_width Eout / 2 + INR i * bin_width Eout).
  set (y := nth 0 Ein 0 - bin_width Ein / 2 + INR j * bin_width Ein).
  replace (nth 0 Eout 0 - bin_width Eout / 2 + (INR i + 1) * bin_width Eout)
    with (x + bin_width Eout) by (unfold x; ring).
  replace (nth 0 Ein 0 - bin_width Ein / 2 + (INR j + 1) * bin_width Ein)
    with (y + bin_width Ein) by (unfold y; ring).
  pose proof (Rmin_l (x + bin_width Eout) (y + bin_width Ein)).
  pose proof (Rmin_r (x + bin_width Eout) (y + bin_width Ein)).
  pose proof (Rmax_l x y). pose proof (Rmax_r x y).
  destruct Hneg; lra.
Qed.

Lemma rebin_descending_array_gives_zeros_witness :
  [0; 0] = repeat 0 (length [2; 1]).
Proof.
  apply (rebin_descending_array_gives_zeros [10; 10] [1 / 2; 3 / 2] [2; 1] [0; 0]).
  - unfold_rebin. decide_R. do 3 f_equal; lra.
  - unfold bin_width. simpl. lra.
  - right. unfold bin_width. simpl. lra.
Defined.

(** When the ranges covered by the two ascending arrays do not overlap,
    every output bin is zero. *)
Theorem rebin_disjoint_ranges_give_zeros (counts_in Ein Eout out : list R) :
  rebin_by_arrays counts_in Ein Eout = Some out ->
  0 < bin_width Ein -> 0 < bin_width Eout ->
  upper_edge Ein <= lower_edge Eout \/ upper_edge Eout <= lower_edge Ein ->
  out = repeat 0 (length Eout).
Proof.
  intros H Hsi Hso Hdis.
  apply rebin_by_arrays_inv in H as (_ & _ & _ & ->).
  apply rebin_loops_no_overlap. intros i j Hi Hj.
  unfold upper_edge, lower_edge in Hdis.
  set (lo_o := nth 0 Eout 0 - bin_width Eout / 2) in *.
  set (lo_i := nth 0 Ein 0 - bin_width Ein / 2) in *.
  assert (Hi0 : 0 <= INR i) by apply pos_INR.
  assert (Hj0 : 0 <= INR j) by apply pos_INR.
  assert (HiN : INR (S i) <= INR (length Eout)) by (apply le_INR; lia).
  assert (HjN : INR (S j) <= INR (length Ein)) by (apply le_INR; lia).
  pose proof (Rmin_l (lo_o + INR (S i) * bin_width Eout) (lo_i + INR (S j) * bin_width Ein)).
  pose proof (Rmin_r (lo_o + INR (S i) * bin_width Eout) (lo_i + INR (S j) * bin_width Ein)).
  pose proof (Rmax_l (lo_o + INR i * bin_width Eout) (lo_i + INR j * bin_width Ein)).
  pose proof (Rmax_r (lo_o + INR i * bin_width Eout) (lo_i + INR j * bin_width Ein)).
  destruct Hdis; nra.
Qed.

Lemma rebin_disjoint_ranges_give_zeros_witness :
  [0; 0] = repeat 0 (length [5; 6]).
Proof.
  apply (rebin_disjoint_ranges_give_zeros [10; 10] [1 / 2; 3 / 2] [5; 6] [0; 0]).
  - unfold_rebin. decide_R. do 3 f_equal; lra.
  - unfold bin_width. simpl. lra.
  - unfold bin_width. simpl. lra.
  - left. unfold upper_edge, lower_edge, bin_width. simpl. lra.
Defined.

(** ** Invariance *)

Lemma Rmin_shift (x y d : R) : Rmin (x + d) (y + d) = Rmin x y + d.
Proof.
  unfold Rmin. destruct (Rle_dec (x + d) (y + d)), (Rle_dec x y); lra.
Qed.

Lemma Rmax_shift (x y d : R) : Rmax (x + d) (y + d) = Rmax x y + d.
Proof.
  unfold Rmax. destruct (Rle_dec (x + d) (y + d)), (Rle_dec x y); lra.
Qed.

Lemma clipped_overlap_shift (lo_o a1_o : R) (Nout : nat) (lo_i a1_i : R) (Nin : nat)
    (d : R) (i j : nat) :
  (i < Nout)%nat -> (j < Nin)%nat ->
  clipped_overlap (linspace (lo_o + d) (lo_o + d + a1_o * INR Nout) (Nout + 1))
                  (linspace (lo_i + d) (lo_i + d + a1_i * INR Nin) (Nin + 1)) i j
  = clipped_overlap (linspace lo_o (lo_o + a1_o * INR Nout) (Nout + 1))
                    (linspace lo_i (lo_i + a1_i * INR Nin) (Nin + 1)) i j.
Proof.
  intros Hi Hj. rewrite !clipped_overlap_edges by assumption.
  replace (lo_o + d + INR (S i) * a1_o) with (lo_o + INR (S i) * a1_o + d) by ring.
  replace (lo_i + d + INR (S j) * a1_i) with (lo_i + INR (S j) * a1_i + d) by ring.
  replace (lo_o + d + INR i * a1_o) with (lo_o + INR i * a1_o + d) by ring.
  replace (lo_i + d + INR j * a1_i) with (lo_i + INR j * a1_i + d) by ring.
  rewrite Rmin_shift, Rmax_shift.
  replace (Rmin (lo_o + INR (S i) * a1_o) (lo_i + INR (S j) * a1_i) + d
           - (Rmax (lo_o + INR i * a1_o) (lo_i + INR j * a1_i) + d))
    with (Rmin (lo_o + INR (S i) * a1_o) (lo_i + INR (S j) * a1_i)
          - Rmax (lo_o + INR i * a1_o) (lo_i + INR j * a1_i)) by ring.
  reflexivity.
Qed.

Lemma bin_width_shift (d : R) (E : list R) :
  (2 <= length E)%nat ->
  bin_width (map (fun e => e + d) E) = bin_width E
  /\ nth 0 (map (fun e => e + d) E) 0 = nth 0 E 0 + d.
Proof.
  intros H. destruct E as [| e0 [| e1 t]]; simpl in H; try lia.
  unfold bin_width. simpl. split; ring.
Qed.

(** Only the position of the two energy axes relative to each other
    matters: shifting the bin centres of both arrays by the same energy
    leaves the result unchanged. *)
Theorem rebin_shift_invariant (d : R) (counts_in Ein Eout : list R) :
  rebin_by_arrays counts_in (map (fun e => e + d) Ein) (map (fun e => e + d) Eout)
  = rebin_by_arrays counts_in Ein Eout.
Proof.
  destruct (rebin_by_arrays counts_in Ein Eout) as [out |] eqn:E.
  - apply rebin_by_arrays_inv in E as (Hin & Hout & Hc & ->).
    rewrite rebin_by_arrays_defined by (rewrite ?length_map; assumption).
    rewrite !length_map.
    destruct (bin_width_shift d Ein Hin) as [-> ->].
    destruct (bin_width_shift d Eout Hout) as [-> ->].
    f_equal. rewrite !rebin_loops_sums.
    apply map_ext_in. intros i Hi. apply in_seq in Hi.
    apply sum_upto_ext. intros j Hj.
    replace (nth 0 Eout 0 + d - bin_width Eout / 2)
      with (nth 0 Eout 0 - bin_width Eout / 2 + d) by ring.
    replace (nth 0 Ein 0 + d - bin_width Ein / 2)
      with (nth 0 Ein 0 - bin_width Ein / 2 + d) by ring.
    rewrite clipped_overlap_shift by lia. reflexivity.
  - destruct (rebin_by_arrays counts_in (map (fun e => e + d) Ein)
                              (map (fun e => e + d) Eout)) as [out |] eqn:E';
      [| reflexivity].
    apply rebin_by_arrays_inv in E' as (Hin & Hout & Hc & _).
    rewrite !length_map in *.
    rewrite rebin_by_arrays_defined in E by assumption. discriminate.
Qed.

(** Counts beyond the length of the input energy array are ignored
    silently. *)
Theorem rebin_ignores_trailing_counts (counts_in extra Ein Eout : list R) :
  length counts_in = length Ein ->
  rebin_by_arrays (counts_in ++ extra) Ein Eout
  = rebin_by_arrays counts_in Ein Eout.
Proof.
  intros Hlen.
  destruct (Nat.lt_ge_cases (length Ein) 2) as [Hs | Hin].
  { unfold rebin_by_arrays. destruct Ein as [| e0 [| e1 t]]; simpl in Hs; try lia;
      reflexivity. }
  destruct (Nat.lt_ge_cases (length Eout) 2) as [Hs | Hout].
  { unfold rebin_by_arrays. destruct Eout as [| o0 [| o1 t]]; simpl in Hs; try lia;
      destruct Ein as [| e0 [| e1 t']]; reflexivity. }
  rewrite !rebin_by_arrays_defined by (rewrite ?length_app; lia).
  f_equal. rewrite !rebin_loops_sums.
  apply map_ext. intros i. apply sum_upto_ext. intros j Hj.
  rewrite app_nth1 by lia. reflexivity.
Qed.

Lemma rebin_ignores_trailing_counts_witness :
  rebin_by_arrays ([10; 20; 30] ++ [99]) [1; 2; 3] [1; 2; 3]
  = rebin_by_arrays [10; 20; 30] [1; 2; 3] [1; 2; 3].
Proof.
  apply (rebin_ignores_trailing_counts [10; 20; 30] [99] [1; 2; 3] [1; 2; 3]).
  reflexivity.
Defined.

(** * Further properties of the Compton kinematics *)

(** The back-scatter value [2 Eg^2 / (511 + 2 Eg)] is the largest recoil
    energy over all angles whatsoever. *)
Theorem E_compton_max_at_PI (Eg theta : R) :
  Eg > 1 / 10 ->
  E_compton Eg theta <= E_compton Eg PI
  /\ E_compton Eg PI = 2 * Eg * Eg / (511 + 2 * Eg).
Proof.
  intros HE. split; [| apply E_compton_back_scatter; assumption].
  rewrite !E_compton_above by assumption. rewrite cos_PI.
  pose proof (one_minus_cos_range theta) as [H0 H2].
  apply recoil_monotone; lra.
Qed.

Lemma E_compton_max_at_PI_witness :
  E_compton 511 (PI / 2) <= E_compton 511 PI
  /\ E_compton 511 PI = 2 * 511 * 511 / (511 + 2 * 511).
Proof.
  apply (E_compton_max_at_PI 511 (PI / 2)). lra.
Defined.

(** At a fixed angle a more energetic gamma ray gives the electron at least
    as much energy. *)
Theorem E_compton_monotone_in_Eg (Eg1 Eg2 theta : R) :
  Eg1 > 1 / 10 -> Eg1 <= Eg2 ->
  E_compton Eg1 theta <= E_compton Eg2 theta.
Proof.
  intros H1 H12.
  rewrite !E_compton_above by lra.
  pose proof (one_minus_cos_range theta) as [Hx _].
  set (x := 1 - cos theta) in *.
  assert (Hd1 : 0 < 511 + Eg1 * x) by nra.
  assert (Hd2 : 0 < 511 + Eg2 * x) by nra.
  assert (Hdiff :
            Eg2 * Eg2 / 511 * x / (1 + Eg2 / 511 * x)
            - Eg1 * Eg1 / 511 * x / (1 + Eg1 / 511 * x)
            = x * (Eg2 - Eg1) * (511 * (Eg1 + Eg2) + Eg1 * Eg2 * x)
              * / ((511 + Eg1 * x) * (511 + Eg2 * x)))
    by (field; lra).
  assert (Hpos : 0 <= x * (Eg2 - Eg1) * (511 * (Eg1 + Eg2) + Eg1 * Eg2 * x)
                      * / ((511 + Eg1 * x) * (511 + Eg2 * x))).
  { apply Rmult_le_pos.
    - apply Rmult_le_pos; [apply Rmult_le_pos; lra |].
      assert (0 <= Eg1 * Eg2 * x) by (apply Rmult_le_pos; nra). lra.
    - left. apply Rinv_0_lt_compat. apply Rmult_lt_0_compat; assumption. }
  lra.
Qed.

Lemma E_compton_monotone_in_Eg_witness :
  E_compton 511 PI <= E_compton 1022 PI.
Proof.
  apply (E_compton_monotone_in_Eg 511 1022 PI); lra.
Defined.

(** Energy balance: what is left to the scattered photon is
    [511 Eg / (511 + Eg (1 - cos theta))], and after back-scattering it
    stays below half the electron rest energy, 255.5 keV. *)
Theorem scattered_photon_energy (Eg theta : R) :
  Eg > 1 / 10 ->
  Eg - E_compton Eg theta = 511 * Eg / (511 + Eg * (1 - cos theta))
  /\ Eg - E_compton Eg PI < 511 / 2.
Proof.
  intros HE.
  pose proof (one_minus_cos_range theta) as [Hx _].
  assert (Hd : 0 < 511 + Eg * (1 - cos theta)) by nra.
  split.
  - rewrite E_compton_above by assumption. field; repeat split; lra.
  - rewrite E_compton_back_scatter by assumption.
    assert (Heq : Eg - 2 * Eg * Eg / (511 + 2 * Eg) = 511 * Eg * / (511 + 2 * Eg))
      by (field; lra).
    rewrite Heq.
    apply Rmult_lt_reg_r with (511 + 2 * Eg); [lra |].
    rewrite Rmult_assoc, Rinv_l by lra. lra.
Qed.

Lemma scattered_photon_energy_witness :
  511 - E_compton 511 0 = 511 * 511 / (511 + 511 * (1 - cos 0))
  /\ 511 - E_compton 511 PI < 511 / 2.
Proof.
  apply (scattered_photon_energy 511 0). lra.
Defined.

(** * Further properties of the bracket search *)

Lemma where_from_nil_all (p : R -> bool) (l : list R) (k : nat) :
  where_from p l k = [] ->
  forall m, (m < length l)%nat -> p (nth m l 0) = false.
Proof.
  revert k. induction l as [| x t IH]; intros k H m Hm; simpl in *; [lia |].
  destruct (p x) eqn:Hx; [discriminate |].
  destruct m as [| m]; [assumption | apply (IH (S k)); [assumption | lia]].
Qed.

(** The first selected index: the condition holds there and at no earlier
    index. *)
Lemma where_from_first (p : R -> bool) (l : list R) (k i : nat) (t : list nat) :
  where_from p l k = i :: t ->
  (k <= i < k + length l)%nat
  /\ p (nth (i - k) l 0) = true
  /\ forall m, (m < i - k)%nat -> p (nth m l 0) = false.
Proof.
  revert k. induction l as [| x u IH]; intros k H; simpl in H; [discriminate |].
  destruct (p x) eqn:Hx.
  - injection H as <- _. rewrite Nat.sub_diag. simpl.
    split; [lia | split; [assumption | intros m Hm; lia]].
  - apply IH in H as (Hr & Hp & Hbefore).
    replace (i - k)%nat with (S (i - S k)) by lia. simpl.
    split; [lia | split; [assumption |]].
    intros [| m] Hm; [assumption | apply Hbefore; lia].
Qed.

(** The last selected index: the condition holds there and at no later
    index. *)
Lemma where_from_last (p : R -> bool) (l : list R) (k : nat) :
  where_from p l k <> [] ->
  let i := last (where_from p l k) 0%nat in
  (k <= i < k + length l)%nat
  /\ p (nth (i - k) l 0) = true
  /\ forall m, (i - k < m)%nat -> (m < length l)%nat -> p (nth m l 0) = false.
Proof.
  revert k. induction l as [| x u IH]; intros k H; [contradiction |].
  cbv zeta. simpl where_from in *.
  destruct (where_from p u (S k)) as [| j w] eqn:HW.
  - destruct (p x) eqn:Hx; [| contradiction].
    simpl last. rewrite Nat.sub_diag. simpl.
    split; [lia | split; [assumption |]].
    intros [| m] Hm Hlen; [lia |].
    apply (where_from_nil_all p u (S k) HW). lia.
  - assert (Hne : where_from p u (S k) <> []) by (rewrite HW; discriminate).
    specialize (IH (S k) Hne). cbv zeta in IH. rewrite HW in IH.
    assert (Hlast : last (if p x then k :: j :: w else j :: w) 0%nat = last (j :: w) 0%nat)
      by (destruct (p x); reflexivity).
    rewrite Hlast. destruct IH as (Hr & Hp & Hafter).
    replace (last (j :: w) 0%nat - k)%nat with (S (last (j :: w) 0%nat - S k)) by lia.
    simpl nth. simpl length.
    split; [lia | split; [assumption |]].
    intros [| m] Hm Hlen; [lia | apply Hafter; lia].
Qed.

Lemma Rle_bool_true (x y : R) : Rle_bool x y = true <-> x <= y.
Proof. unfold Rle_bool. destruct (Rle_dec x y); split; intros; try lra; try discriminate; reflexivity. Qed.

Lemma Rle_bool_false (x y : R) : Rle_bool x y = false <-> y < x.
Proof. unfold Rle_bool. destruct (Rle_dec x y); split; intros; try lra; try discriminate; reflexivity. Qed.

Lemma Rge_bool_true (x y : R) : Rge_bool x y = true <-> y <= x.
Proof. unfold Rge_bool. destruct (Rge_dec x y); split; intros; try lra; try discriminate; reflexivity. Qed.

Lemma Rge_bool_false (x y : R) : Rge_bool x y = false <-> x < y.
Proof. unfold Rge_bool. destruct (Rge_dec x y); split; intros; try lra; try discriminate; reflexivity. Qed.

(** On strictly ascending reference energies, with at least two of them and
    [E_j] not above the highest, the search returns two neighbouring
    indices [lo] and [lo + 1] inside the set.  They enclose [E_j] whenever
    [E_j] is not below the lowest reference energy, and are the two lowest
    entries otherwise. *)
Theorem bracket_adjacent_on_ascending (Eg : list R) (E_j : R) :
  ascending Eg -> (2 <= length Eg)%nat ->
  E_j <= nth (length Eg - 1) Eg 0 ->
  let lo := fst (bracket Eg E_j) in
  let hi := snd (bracket Eg E_j) in
  hi = S lo /\ (hi < length Eg)%nat
  /\ (nth 0 Eg 0 <= E_j -> nth lo Eg 0 <= E_j <= nth hi Eg 0)
  /\ (E_j < nth 0 Eg 0 -> lo = 0%nat).
Proof.
  intros Hasc HN Htop. cbv zeta. unfold bracket.
  set (L := np_where (fun e => Rle_bool e E_j) Eg).
  set (H := np_where (fun e => Rge_bool e E_j) Eg).
  assert (HH : H <> []).
  { unfold H, np_where. apply where_from_some. apply Exists_exists.
    exists (nth (length Eg - 1) Eg 0). split; [apply nth_In; lia |].
    apply Rge_bool_true. assumption. }
  destruct H as [| ih th] eqn:EH; [contradiction |].
  unfold H, np_where in EH. fold H in EH.
  apply where_from_first in EH as (Hihr & Hihp & Hihb).
  rewrite Nat.sub_0_r in Hihp, Hihb. apply Rge_bool_true in Hihp.
  assert (Hbefore : forall m, (m < ih)%nat -> nth m Eg 0 < E_j)
    by (intros m Hm; apply Rge_bool_false; apply Hihb; assumption).
  simpl hd.
  destruct L as [| il tl] eqn:EL.
  - (* no reference energy at or below E_j *)
    unfold L, np_where in EL.
    pose proof (where_from_nil_all _ _ _ EL) as Hall.
    assert (H0 : E_j < nth 0 Eg 0) by (apply Rle_bool_false; apply Hall; lia).
    assert (Hih0 : ih = 0%nat).
    { destruct ih as [| ih']; [reflexivity |].
      specialize (Hbefore 0%nat ltac:(lia)). lra. }
    subst ih. simpl. repeat split; try lia; lra.
  - assert (HL : where_from (fun e => Rle_bool e E_j) Eg 0 <> [])
      by (unfold L, np_where in EL; rewrite EL; discriminate).
    apply where_from_last in HL. cbv zeta in HL.
    unfold L, np_where in EL. rewrite EL in HL.
    set (i := last (il :: tl) 0%nat) in *.
    destruct HL as (Hilr & Hilp & Hila).
    rewrite Nat.sub_0_r in Hilp, Hila. apply Rle_bool_true in Hilp.
    assert (Hafter : forall m, (i < m)%nat -> (m < length Eg)%nat -> E_j < nth m Eg 0)
      by (intros m Hm Hlen; apply Rle_bool_false; apply Hila; assumption).
    assert (Hlow : (i <= ih)%nat).
    { destruct (Nat.le_gt_cases i ih) as [| Hgt]; [assumption |].
      specialize (Hasc ih i Hgt ltac:(lia)). lra. }
    assert (Hhigh : (ih <= S i)%nat).
    { destruct (Nat.le_gt_cases ih (S i)) as [| Hgt]; [assumption |].
      specialize (Hbefore (S i) Hgt).
      specialize (Hafter (S i) ltac:(lia) ltac:(lia)). lra. }
    destruct (Nat.eqb_spec i ih) as [Heq | Hne].
    + subst ih.
      destruct (Nat.ltb_spec 0 i) as [Hpos | Hzero]; cbn [fst snd].
      * pose proof (Hasc (i - 1)%nat i ltac:(lia) ltac:(lia)) as Hprev.
        pose proof (Hasc 0%nat i ltac:(lia) ltac:(lia)) as Hfirst.
        split; [lia | split; [lia | split]].
        -- intros _. lra.
        -- intros Hc. lra.
      * assert (Hi0 : i = 0%nat) by lia.
        pose proof (Hasc 0%nat 1%nat ltac:(lia) ltac:(lia)) as Hnext.
        rewrite Hi0 in *. cbn [Nat.add].
        split; [reflexivity | split; [lia | split]].
        -- intros _. lra.
        -- intros _. reflexivity.
    + cbn [fst snd]. assert (Hs : ih = S i) by lia. subst ih.
      split; [reflexivity | split; [lia | split]].
      * intros _. lra.
      * intros Hc. destruct i as [| i']; [lra |].
        pose proof (Hasc 0%nat (S i') ltac:(lia) ltac:(lia)). lra.
Qed.

Lemma ascending_1000_1500 : ascending [1000; 1500].
Proof.
  intros i j Hij Hj. simpl in Hj.
  destruct j as [| [| j]]; try lia.
  destruct i as [| i]; [simpl; lra | lia].
Qed.

Lemma bracket_adjacent_on_ascending_witness :
  let lo := fst (bracket [1000; 1500] 1250) in
  let hi := snd (bracket [1000; 1500] 1250) in
  hi = S lo /\ (hi < length [1000; 1500])%nat
  /\ (nth 0 [1000; 1500] 0 <= 1250 -> nth lo [1000; 1500] 0 <= 1250 <= nth hi [1000; 1500] 0)
  /\ (1250 < nth 0 [1000; 1500] 0 -> lo = 0%nat).
Proof.
  apply (bracket_adjacent_on_ascending [1000; 1500] 1250).
  - exact ascending_1000_1500.
  - simpl. lia.
  - simpl. lra.
Defined.

(** With fewer than two calibration entries the search returns the pair
    (0, 1) whatever the energy, and index 1 does not exist. *)
Theorem bracket_needs_two_entries (Eg : list R) (E_j : R) :
  (length Eg < 2)%nat ->
  bracket Eg E_j = (0%nat, 1%nat)
  /\ getitem Eg (snd (bracket Eg E_j)) = None.
Proof.
  intros HN.
  assert (Hb : bracket Eg E_j = (0%nat, 1%nat)).
  { destruct Eg as [| e [| e' t]]; [| | simpl in HN; lia].
    - reflexivity.
    - unfold bracket, np_where, Rle_bool, Rge_bool. cbn [where_from length].
      destruct (Rle_dec e E_j), (Rge_dec e E_j); reflexivity. }
  rewrite Hb. split; [reflexivity |].
  destruct Eg as [| e [| e' t]]; [reflexivity | reflexivity | simpl in HN; lia].
Qed.

Lemma bracket_needs_two_entries_witness :
  bracket [1000] 1250 = (0%nat, 1%nat)
  /\ getitem [1000] (snd (bracket [1000] 1250)) = None.
Proof.
  apply (bracket_needs_two_entries [1000] 1250). simpl. lia.
Defined.

(** * Further properties of the row loop *)

(** ** Normalization *)

Lemma div_all_nonneg (l : list R) (s : R) :
  Forall (fun c => 0 <= c) l -> 0 < s -> Forall (fun c => 0 <= c) (div_all l s).
Proof.
  intros H Hs. unfold div_all. apply Forall_forall. intros y Hy.
  apply in_map_iff in Hy as [x [<- Hx]].
  rewrite Forall_forall in H. specialize (H x Hx).
  apply Rmult_le_pos; [assumption | left; apply Rinv_0_lt_compat; assumption].
Qed.


(** Lines 210-223 turn a bracket spectrum with non-negative entries and a
    positive total into a probability distribution: continuum channels and
    the four peak components are non-negative and add up to one. *)
Theorem normalize_gives_distribution (cmp : list R) (FE_i SE_i DE_i c511_i : R) :
  Forall (fun c => 0 <= c) cmp ->
  0 <= FE_i -> 0 <= SE_i -> 0 <= DE_i -> 0 <= c511_i ->
  0 < np_sum cmp + FE_i + SE_i + DE_i + c511_i ->
  let P := normalize cmp FE_i SE_i DE_i c511_i in
  Forall (fun c => 0 <= c) (n_cmp P)
  /\ 0 <= n_FE P /\ 0 <= n_SE P /\ 0 <= n_DE P /\ 0 <= n_c511 P
  /\ np_sum (n_cmp P) + n_FE P + n_SE P + n_DE P + n_c511 P = 1.
Proof.
  intros Hc HF HS HD H5 Htot. cbv zeta.
  assert (Hinv : 0 < / (np_sum cmp + FE_i + SE_i + DE_i + c511_i))
    by (apply Rinv_0_lt_compat; assumption).
  unfold normalize. cbn [n_cmp n_FE n_SE n_DE n_c511].
  split; [apply div_all_nonneg; assumption |].
  repeat (split; [apply Rmult_le_pos; lra |]).
  rewrite np_sum_div_all. field. lra.
Qed.

Lemma normalize_gives_distribution_witness :
  let P := normalize [1; 1] 2 0 0 0 in
  Forall (fun c => 0 <= c) (n_cmp P)
  /\ 0 <= n_FE P /\ 0 <= n_SE P /\ 0 <= n_DE P /\ 0 <= n_c511 P
  /\ np_sum (n_cmp P) + n_FE P + n_SE P + n_DE P + n_c511 P = 1.
Proof.
  apply (normalize_gives_distribution [1; 1] 2 0 0 0); try lra.
  - repeat constructor; lra.
  - unfold np_sum. simpl. lra.
Defined.

(** ** Channel numbers *)

Lemma py_int_floor (x : R) (k : nat) :
  INR k <= x < INR k + 1 -> py_int x = Z.of_nat k.
Proof.
  intros [Hlo Hhi]. unfold py_int.
  pose proof (pos_INR k) as Hk.
  destruct (Rle_dec 0 x) as [_ | Hn]; [| lra].
  symmetry. apply Int_part_spec. rewrite <- INR_IZR_INZ. lra.
Qed.

Lemma py_int_small (x : R) : -1 < x < 1 -> py_int x = 0%Z.
Proof.
  intros [Hlo Hhi]. unfold py_int.
  destruct (Rle_dec 0 x) as [Hp | Hn].
  - symmetry. apply Int_part_spec. simpl. lra.
  - assert (H : Int_part (- x) = 0%Z) by (symmetry; apply Int_part_spec; simpl; lra).
    rewrite H. reflexivity.
Qed.

(** Lines 234-235 send an energy to the nearest channel of an ascending
    output grid: everything within half a bin of the centre of channel [k]
    gets the number [k]; in particular a bin centre gets its own index. *)
Theorem channel_of_nearest (E a0_out a1_out : R) (k : nat) :
  0 < a1_out ->
  a0_out + (INR k - 1 / 2) * a1_out <= E < a0_out + (INR k + 1 / 2) * a1_out ->
  channel_of E a0_out a1_out = Z.of_nat k
  /\ channel_of (a0_out + INR k * a1_out) a0_out a1_out = Z.of_nat k.
Proof.
  intros Ha [Hlo Hhi].
  assert (Hinv : 0 < / a1_out) by (apply Rinv_0_lt_compat; assumption).
  split; unfold channel_of; apply py_int_floor.
  - assert (H1 : (E - a0_out) / a1_out * a1_out = E - a0_out) by (field; lra).
    split.
    + apply Rmult_le_reg_r with a1_out; [assumption |].
      rewrite Rmult_plus_distr_r, H1. lra.
    + apply Rmult_lt_reg_r with a1_out; [assumption |].
      rewrite Rmult_plus_distr_r, H1. lra.
  - replace ((a0_out + INR k * a1_out - a0_out) / a1_out) with (INR k) by (field; lra).
    lra.
Qed.

Lemma channel_of_nearest_witness :
  channel_of 1300 0 1250 = Z.of_nat 1
  /\ channel_of (0 + INR 1 * 1250) 0 1250 = Z.of_nat 1.
Proof.
  apply (channel_of_nearest 1300 0 1250 1); simpl; lra.
Defined.

(** Truncation towards zero makes channel 0 twice as wide as the others:
    energies down to one and a half bins below the first bin centre are
    still given channel 0, never a negative channel. *)
Theorem channel_zero_reaches_below_grid (E a0_out a1_out : R) :
  0 < a1_out ->
  a0_out - 3 / 2 * a1_out < E < a0_out + 1 / 2 * a1_out ->
  channel_of E a0_out a1_out = 0%Z.
Proof.
  intros Ha [Hlo Hhi].
  unfold channel_of. apply py_int_small.
  assert (H1 : (E - a0_out) / a1_out * a1_out = E - a0_out) by (field; lra).
  split.
  - apply Rmult_lt_reg_r with a1_out; [assumption |].
    rewrite Rmult_plus_distr_r, H1. lra.
  - apply Rmult_lt_reg_r with a1_out; [assumption |].
    rewrite Rmult_plus_distr_r, H1. lra.
Qed.

Lemma channel_zero_reaches_below_grid_witness :
  channel_of (-1200) 0 1250 = 0%Z.
Proof.
  apply (channel_zero_reaches_below_grid (-1200) 0 1250); lra.
Defined.

(** ** The Compton axis *)

(** Line 149 ends the axis of the Compton spectra at [a1_cmp*(N_cmp-1)]
    and not at [a0_cmp + a1_cmp*(N_cmp-1)]: the axis starts at [a0_cmp],
    has [N_cmp] points, and the bin width that the rebinning reads off it is
    [a1_cmp - a0_cmp/(N_cmp-1)], which is the calibration step [a1_cmp] of
    the file only when [a0_cmp] is zero. *)
Theorem Ecmp_array_step (a0_cmp a1_cmp : R) (N_cmp : nat) :
  (2 <= N_cmp)%nat ->
  length (Ecmp_array_of a0_cmp a1_cmp N_cmp) = N_cmp
  /\ nth 0 (Ecmp_array_of a0_cmp a1_cmp N_cmp) 0 = a0_cmp
  /\ bin_width (Ecmp_array_of a0_cmp a1_cmp N_cmp)
     = a1_cmp - a0_cmp / (INR N_cmp - 1)
  /\ (bin_width (Ecmp_array_of a0_cmp a1_cmp N_cmp) = a1_cmp <-> a0_cmp = 0).
Proof.
  intros HN.
  destruct N_cmp as [| [| n]]; try lia.
  assert (Hn : 0 <= INR n) by apply pos_INR.
  assert (Hw : bin_width (Ecmp_array_of a0_cmp a1_cmp (S (S n)))
               = a1_cmp - a0_cmp / (INR (S (S n)) - 1)).
  { unfold bin_width, Ecmp_array_of, linspace.
    cbn [seq map nth Nat.sub]. rewrite !S_INR. simpl INR. field. lra. }
  split; [unfold Ecmp_array_of, linspace; rewrite length_map, length_seq; reflexivity |].
  split; [unfold Ecmp_array_of, linspace; cbn [seq map nth]; simpl INR; ring |].
  split; [exact Hw |].
  rewrite Hw. rewrite !S_INR.
  assert (Hd : 0 < INR n + 1 + 1 - 1) by lra.
  split.
  - intros H. assert (Hz : a0_cmp / (INR n + 1 + 1 - 1) = 0) by lra.
    apply Rmult_eq_compat_r with (r := INR n + 1 + 1 - 1) in Hz.
    unfold Rdiv in Hz. rewrite Rmult_assoc, Rinv_l in Hz by lra. lra.
  - intros ->. unfold Rdiv. ring.
Qed.

Lemma Ecmp_array_step_witness :
  length (Ecmp_array_of 10 5 3) = 3%nat
  /\ nth 0 (Ecmp_array_of 10 5 3) 0 = 10
  /\ bin_width (Ecmp_array_of 10 5 3) = 5 - 10 / (INR 3 - 1)
  /\ (bin_width (Ecmp_array_of 10 5 3) = 5 <-> 10 = 0).
Proof.
  apply (Ecmp_array_step 10 5 3). lia.
Defined.

(** * Reading resp.dat *)

Lemma scan_for_count_no_marker (int_of : string -> option Z) (lines : list string) :
  Forall (fun l => is_marker l = false) lines ->
  scan_for_count int_of lines = (inr (-1)%Z, []).
Proof.
  intros H. induction H as [| l t Hl _ IH]; simpl.
  - reflexivity.
  - rewrite Hl. exact IH.
Qed.

Lemma scan_for_count_skips (int_of : string -> option Z) (pre rest : list string) :
  Forall (fun l => is_marker l = false) pre ->
  scan_for_count int_of (pre ++ rest) = scan_for_count int_of rest.
Proof.
  intros H. induction H as [| l t Hl _ IH]; simpl.
  - reflexivity.
  - rewrite Hl. exact IH.
Qed.

(** A file without a line that starts with the marker
    [# Next: Numer of Lines] is rejected with the exception of line 113,
    whatever else it holds. *)
Theorem read_resp_dat_without_marker (int_of : string -> option Z)
    (row_of : string -> option (list R)) (lines : list string) :
  Forall (fun l => is_marker l = false) lines ->
  read_resp_dat int_of row_of lines = inl Error_reading_resp_dat.
Proof.
  intros H. unfold read_resp_dat.
  rewrite scan_for_count_no_marker by assumption. reflexivity.
Qed.

Lemma read_resp_dat_without_marker_witness :
  read_resp_dat (fun _ => Some 1%Z) (fun _ => Some [])
                ["# Eg FWHM"%string; "1000 1 1 1 1 1 1"%string]
  = inl Error_reading_resp_dat.
Proof.
  apply read_resp_dat_without_marker.
  repeat constructor.
Defined.

Lemma read_rows_all (row_of : string -> option (list R)) (g : string -> list R)
    (data : list string) (n : nat) :
  (n <= length data)%nat ->
  (forall l, In l (firstn n data) -> row_of l = Some (g l)) ->
  read_rows row_of n data = inr (map g (firstn n data)).
Proof.
  revert data. induction n as [| n IH]; intros data Hn Hrow; [reflexivity |].
  destruct data as [| l rest]; simpl in Hn; [lia |].
  simpl. rewrite (Hrow l) by (left; reflexivity).
  rewrite IH; [reflexivity | lia |].
  intros l' Hl'. apply Hrow. right. assumption.
Qed.

(** Everything before the first marker line is ignored; the line after the
    marker gives the number of rows, one more line is skipped, and exactly
    that many of the following lines are converted, in order.  Lines after
    them are not read, and a count of zero or less reads no row at all. *)
Theorem read_resp_dat_rows (int_of : string -> option Z)
    (row_of : string -> option (list R)) (g : string -> list R)
    (pre data : list string) (m count_line header : string) (Nlines : Z) :
  Forall (fun l => is_marker l = false) pre ->
  is_marker m = true ->
  int_of count_line = Some Nlines ->
  (Z.to_nat Nlines <= length data)%nat ->
  (forall l, In l (firstn (Z.to_nat Nlines) data) -> row_of l = Some (g l)) ->
  read_resp_dat int_of row_of (pre ++ m :: count_line :: header :: data)
  = inr (map g (firstn (Z.to_nat Nlines) data)).
Proof.
  intros Hpre Hm Hcount Hlen Hrows. unfold read_resp_dat.
  rewrite scan_for_count_skips by assumption.
  simpl scan_for_count. rewrite Hm, Hcount. cbn [of_option].
  apply read_rows_all; assumption.
Qed.

Lemma read_resp_dat_rows_witness :
  read_resp_dat (fun _ => Some 1%Z) (fun _ => Some [1000; 1])
                (["# comment"%string]
                   ++ "# Next: Numer of Lines"%string :: "1"%string :: "# Eg FWHM"%string
                   :: ["1000 1"%string; "trailing"%string])
  = inr (map (fun _ => [1000; 1])
             (firstn (Z.to_nat 1) ["1000 1"%string; "trailing"%string])).
Proof.
  apply (read_resp_dat_rows (fun _ => Some 1%Z) (fun _ => Some [1000; 1])
           (fun _ => [1000; 1]) ["# comment"%string]
           ["1000 1"%string; "trailing"%string]
           "# Next: Numer of Lines"%string "1"%string "# Eg FWHM"%string 1%Z).
  - repeat constructor.
  - reflexivity.
  - reflexivity.
  - simpl. lia.
  - intros l _. reflexivity.
Defined.

(** * Further properties of Region A *)

Lemma fan_range_empty_witness :
  (channel_of (Ece_of 1250) 0 1250 <= channel_of (Ebsc_of 1250) 0 1250)%Z.
Proof.
  apply (fan_range_empty 1250 0 1250); lra.
Defined.

(** At the lower reference energy line 243 returns the low bracket spectrum
    unchanged; at the upper reference energy it returns the low spectrum
    mirrored away from the high one, [2 cmp_low[i] - cmp_high[i]], not the
    high spectrum. *)
Theorem region_A_at_bracket_ends (cmp_low cmp_high : list R) (Eg_low Eg_high : R) (i : nat) :
  Eg_low <> Eg_high ->
  region_A cmp_low cmp_high Eg_low Eg_low Eg_high i = nth i cmp_low 0
  /\ region_A cmp_low cmp_high Eg_high Eg_low Eg_high i
     = 2 * nth i cmp_low 0 - nth i cmp_high 0.
Proof.
  intros Hne. unfold region_A. split.
  - unfold Rdiv. ring.
  - field. lra.
Qed.

Lemma region_A_at_bracket_ends_witness :
  region_A [1 / 4] [3 / 8] 1000 1000 1500 0 = nth 0 [1 / 4] 0
  /\ region_A [1 / 4] [3 / 8] 1500 1000 1500 0 = 2 * nth 0 [1 / 4] 0 - nth 0 [3 / 8] 0.
Proof.
  apply (region_A_at_bracket_ends [1 / 4] [3 / 8] 1000 1500 0). lra.
Defined.

(** * Rebinning in binary64 *)

Lemma b64_identity_on_unit_grid :
  B64.rebin_by_arrays [10; 20; 30]%float [1; 2; 3]%float [1; 2; 3]%float
  = Some [10; 20; 30]%float.
Proof. vm_compute. reflexivity. Qed.

Lemma b64_identity_on_tenths :
  B64.rebin_by_arrays [10; 20; 30]%float [0; 0.1; 0.2]%float [0; 0.1; 0.2]%float
  = Some [10.000000000000002; 20; 30.000000000000007]%float.
Proof. vm_compute. reflexivity. Qed.

Lemma b64_one_bin : B64.rebin_by_arrays [10]%float [1]%float [1]%float = None.
Proof. vm_compute. reflexivity. Qed.

Lemma b64_drops_uncovered_bin :
  B64.rebin_by_arrays [10; 20; 30]%float [0.5; 1.5; 2.5]%float [0.5; 1.5]%float
  = Some [10; 20]%float.
Proof. vm_compute. reflexivity. Qed.

(** C5 as stated fails in two ways.  A one-bin grid cannot be given to the
    function: the step is read off the first two bin centres and the call
    raises [IndexError].  And the result is not exact in binary64: on the bin
    centres 0, 0.1, 0.2 the counts 10, 20, 30 come back as
    10.000000000000002, 20, 30.000000000000007. *)
Lemma rebin_identity_fails :
  rebin_by_arrays [10] [1] [1] <> Some [10]
  /\ B64.rebin_by_arrays [10]%float [1]%float [1]%float <> Some [10]%float
  /\ B64.rebin_by_arrays [10; 20; 30]%float [0; 0.1; 0.2]%float [0; 0.1; 0.2]%float
     <> Some [10; 20; 30]%float.
Proof.
  split; [exact rebin_identity_one_bin_fails |].
  split.
  - rewrite b64_one_bin. discriminate.
  - rewrite b64_identity_on_tenths. intros H.
    apply (f_equal (fun o => match o with
                             | Some (x :: _) => PrimFloat.eqb x 10%float
                             | _ => false
                             end)) in H.
    vm_compute in H. discriminate H.
Qed.

(** C5 (amended): computed in exact arithmetic, rebinning onto the same
    array of at least two bin centres with a positive step returns the counts
    unchanged; and for the bin centres 1, 2, 3 with counts 10, 20, 30 the
    binary64 computation returns exactly 10, 20, 30. *)
Theorem rebin_identity_exact_arithmetic :
  (forall counts E : list R,
      (2 <= length E)%nat -> length counts = length E -> 0 < bin_width E ->
      rebin_by_arrays counts E E = Some counts)
  /\ B64.rebin_by_arrays [10; 20; 30]%float [1; 2; 3]%float [1; 2; 3]%float
     = Some [10; 20; 30]%float.
Proof.
  split; [exact rebin_identity | exact b64_identity_on_unit_grid].
Qed.

Lemma rebin_identity_exact_arithmetic_witness :
  rebin_by_arrays [10; 20; 30] [1; 2; 3] [1; 2; 3] = Some [10; 20; 30].
Proof.
  apply (proj1 rebin_identity_exact_arithmetic [10; 20; 30] [1; 2; 3]).
  - simpl. lia.
  - reflexivity.
  - unfold bin_width. simpl. lra.
Defined.

(** C2 at the failing input: input bins with edges 0, 1, 2, 3 and counts
    10, 20, 30; output bins with edges 0, 1, 2, a range inside the input
    range.  The call returns 10, 20 without an error, in exact arithmetic and
    in binary64 alike: the total is 30, not the 60 that the claim and the
    docstring ("The total number of counts is preserved") promise. *)
Theorem rebin_total_not_preserved :
  lower_edge [1 / 2; 3 / 2; 5 / 2] <= lower_edge [1 / 2; 3 / 2]
  /\ upper_edge [1 / 2; 3 / 2] <= upper_edge [1 / 2; 3 / 2; 5 / 2]
  /\ rebin_by_arrays [10; 20; 30] [1 / 2; 3 / 2; 5 / 2] [1 / 2; 3 / 2] = Some [10; 20]
  /\ np_sum [10; 20] = 30 /\ np_sum [10; 20; 30] = 60
  /\ B64.rebin_by_arrays [10; 20; 30]%float [0.5; 1.5; 2.5]%float [0.5; 1.5]%float
     = Some [10; 20]%float.
Proof.
  unfold upper_edge, lower_edge, bin_width. cbn [nth length INR].
  split; [lra |]. split; [lra |].
  split; [exact rebin_drops_uncovered_bin |].
  unfold np_sum. cbn [fold_left].
  split; [lra |]. split; [lra |].
  exact b64_drops_uncovered_bin.
Qed.

(** * What the Region A loop writes *)




(** * Above the calibration set *)

Lemma bracket_above_all_witness :
  snd (bracket [1000; 1500] 2000) = length [1000; 1500].
Proof.
  apply (bracket_above_all [1000; 1500] 2000).
  - discriminate.
  - repeat constructor; lra.
Defined.
